(** * creme.optim.lr_schedule: learning-rate schedules

    A shallow embedding of [creme/optim/lr_schedule.py] and the properties its
    specification states about it.

    The three scheduler classes are one-line formulas over Python numbers, so
    what there is to model is Python's arithmetic: unbounded integers,
    binary64 floats (the kernel's primitive floats, specified by
    [SpecFloat]), the promotion of an int operand to a float, the exceptions
    [ZeroDivisionError] and [OverflowError], and the complex result of a
    negative base raised to a fractional power.  The calls Python makes into
    the platform's C math library ([pow], [hypot], [atan2], [cos], [sin]) are
    kept as calls: a computation is a tree whose inner nodes are such calls,
    and a statement that holds whatever the library answers is a statement
    about all the leaves of the tree.  The arithmetic is that of CPython 3
    (Objects/longobject.c, floatobject.c, complexobject.c). *)

From Stdlib Require Import ZArith Floats Bool List Lia.
From Stdlib Require Import Strings.String.
Import ListNotations.

Local Open Scope Z_scope.

(** ** Python numbers *)

(** A number a scheduler is configured with or called on: an [int] or a
    [float].  The spec's data model has float64 fields; the defaults of the
    source ([t0=1000]) and the step are ints. *)
Inductive num : Type :=
| Int (z : Z)
| Float (x : float).

(** What an arithmetic expression evaluates to: a number, or a [complex]
    (a pair of floats). *)
Inductive value : Type :=
| Num (n : num)
| Complex (re im : float).

Inductive exn : Type :=
| ZeroDivisionError
| OverflowError
| AttributeError.

Inductive result (A : Type) : Type :=
| Ok (a : A)
| Err (e : exn).
Arguments Ok {A} a.
Arguments Err {A} e.

Definition result_bind {A B} (r : result A) (k : A -> result B) : result B :=
  match r with
  | Ok a => k a
  | Err e => Err e
  end.

(** ** Calls into the C math library *)

Inductive libm_fn : Type :=
| c_pow | c_hypot | c_atan2 | c_cos | c_sin.

(** A computation that may ask the math library: [Call f args k] calls [f]
    on [args] and goes on with [k] on the answer. *)
Inductive libm (A : Type) : Type :=
| Done (a : A)
| Call (f : libm_fn) (args : list float) (k : float -> libm A).
Arguments Done {A} a.
Arguments Call {A} f args k.

Fixpoint libm_bind {A B} (c : libm A) (k : A -> libm B) : libm B :=
  match c with
  | Done a => k a
  | Call f args k' => Call f args (fun r => libm_bind (k' r) k)
  end.

(** An implementation of the library answers every call. *)
Definition oracle : Type := libm_fn -> list float -> float.

Fixpoint answer {A} (o : oracle) (c : libm A) : A :=
  match c with
  | Done a => a
  | Call f args k => answer o (k (o f args))
  end.

(** [all_leaves P c]: [P] holds of the outcome of [c] whatever the library
    answers. *)
Fixpoint all_leaves {A} (P : A -> Prop) (c : libm A) : Prop :=
  match c with
  | Done a => P a
  | Call _ _ k => forall r, all_leaves P (k r)
  end.

(** ** Floats *)

Local Open Scope float_scope.

(** [PyLong_AsDouble]: the nearest float (ties to even); "int too large to
    convert to float" when that is not finite. *)
Definition Z2float (z : Z) : float :=
  SF2Prim (binary_normalize prec emax z 0 false).

Definition float_of_int (z : Z) : result float :=
  let x := Z2float z in
  if is_infinity x then Err OverflowError else Ok x.

(** [CONVERT_TO_DOUBLE] of floatobject.c. *)
Definition to_double (n : num) : result float :=
  match n with
  | Int z => float_of_int z
  | Float x => Ok x
  end.

(** [floor] on a float: exact, and the identity on what is not finite. *)
Definition c_floor (x : float) : float :=
  match Prim2SF x with
  | S754_finite s m e =>
      match e with
      | Zneg _ =>
          let q := Z.shiftr (cond_Zopp s (Zpos m)) (- e) in
          SF2Prim (binary_normalize prec emax q 0 s)
      | _ => x
      end
  | _ => x
  end.

(** [DOUBLE_IS_ODD_INTEGER(x)], that is [fmod(fabs(x), 2.0) == 1.0]; [fmod]
    is exact. *)
Definition double_is_odd_integer (x : float) : bool :=
  match Prim2SF x with
  | S754_finite _ m e =>
      match e with
      | Z0 => Z.odd (Zpos m)
      | Zneg p => Z.eqb (Z.modulo (Zpos m) (Z.shiftl 2 (Zpos p))) (Z.shiftl 1 (Zpos p))
      | Zpos _ => false
      end
  | _ => false
  end.

(** The nearest float to the quotient of two integers, [b <> 0]
    ([long_true_divide] rounds the exact quotient once). *)
Definition Zdiv2float (a b : Z) : float :=
  let s := xorb (a <? 0)%Z (b <? 0)%Z in
  match Z.abs a with
  | Z0 => if s then neg_zero else zero
  | ma =>
      let '(q, e, l) := SFdiv_core_binary prec emax ma 0 (Z.abs b) 0 in
      SF2Prim (binary_round_aux prec emax s q e l)
  end.

(** ** The arithmetic operators *)

(** [+] on numbers: exact on ints ([long_add]); otherwise both operands are
    converted and added as floats ([float_add]). *)
Definition py_add (a b : num) : result num :=
  match a, b with
  | Int x, Int y => Ok (Int (x + y)%Z)
  | _, _ =>
      result_bind (to_double a) (fun x =>
      result_bind (to_double b) (fun y =>
      Ok (Float (x + y))))
  end.

(** [*] on numbers ([long_mul], [float_mul]). *)
Definition py_mul (a b : num) : result num :=
  match a, b with
  | Int x, Int y => Ok (Int (x * y)%Z)
  | _, _ =>
      result_bind (to_double a) (fun x =>
      result_bind (to_double b) (fun y =>
      Ok (Float (x * y))))
  end.

(** [long_true_divide]. *)
Definition long_true_divide (a b : Z) : result float :=
  if (b =? 0)%Z then Err ZeroDivisionError
  else
    let x := Zdiv2float a b in
    if is_infinity x then Err OverflowError else Ok x.

(** [float_div]: "float division by zero" on a zero divisor of either
    sign. *)
Definition float_div (a b : num) : result float :=
  result_bind (to_double a) (fun x =>
  result_bind (to_double b) (fun y =>
  if y =? 0 then Err ZeroDivisionError else Ok (x / y))).

(** [_Py_c_quot], and [complex_div] around it: "complex division by zero"
    when both parts of the divisor are zero. *)
Definition c_quot (a b : float * float) : result (float * float) :=
  let '(a_real, a_imag) := a in
  let '(b_real, b_imag) := b in
  let abs_breal := if b_real <? 0 then - b_real else b_real in
  let abs_bimag := if b_imag <? 0 then - b_imag else b_imag in
  if abs_bimag <=? abs_breal then
    if abs_breal =? 0 then Err ZeroDivisionError
    else
      let ratio := b_imag / b_real in
      let denom := b_real + b_imag * ratio in
      Ok ((a_real + a_imag * ratio) / denom, (a_imag - a_real * ratio) / denom)
  else if abs_breal <=? abs_bimag then
    let ratio := b_real / b_imag in
    let denom := b_real * ratio + b_imag in
    Ok ((a_real * ratio + a_imag) / denom, (a_imag * ratio - a_real) / denom)
  else Ok (nan, nan).

Definition complex_div (a : num) (b : float * float) : result value :=
  result_bind (to_double a) (fun x =>
  result_bind (c_quot (x, 0) b) (fun q =>
  Ok (Complex (fst q) (snd q)))).

(** [/]: a number divided by what the denominator evaluated to. *)
Definition py_truediv (a : num) (b : value) : result value :=
  match b with
  | Complex re im => complex_div a (re, im)
  | Num (Int y) =>
      match a with
      | Int x => result_bind (long_true_divide x y) (fun q => Ok (Num (Float q)))
      | Float _ => result_bind (float_div a (Int y)) (fun q => Ok (Num (Float q)))
      end
  | Num (Float y) => result_bind (float_div a (Float y)) (fun q => Ok (Num (Float q)))
  end.

(** ** Exponentiation *)

Definition ret_float (x : float) : libm (result value) := Done (Ok (Num (Float x))).

(** [_Py_c_pow] on a nonzero base and an exponent with a nonzero real part
    and a zero imaginary part, the one case [float_pow] hands over, and the
    error check of [complex_pow] after it ([_Py_ADJUST_ERANGE2]:
    "complex exponentiation" overflows when a part is infinite). *)
Definition complex_pow (a_real a_imag b_real : float) : libm (result value) :=
  Call c_hypot [a_real; a_imag] (fun vabs =>
  Call c_pow [vabs; b_real] (fun len =>
  Call c_atan2 [a_imag; a_real] (fun at_ =>
  let phase := at_ * b_real in
  Call c_cos [phase] (fun c =>
  Call c_sin [phase] (fun s =>
  let r_real := len * c in
  let r_imag := len * s in
  if is_infinity r_real || is_infinity r_imag then Done (Err OverflowError)
  else Done (Ok (Complex r_real r_imag))))))).

(** The end of [float_pow]: [iv] is positive and finite, [iw] finite and
    nonzero; the platform's [pow] is called unless [iv] is 1, and an infinite
    answer is an [OverflowError] ([_Py_ADJUST_ERANGE1]). *)
Definition float_pow_finish (iv iw : float) (negate_result : bool) : libm (result value) :=
  if iv =? 1 then ret_float (if negate_result then -1 else 1)
  else
    Call c_pow [iv; iw] (fun ix =>
    let ix := if negate_result then - ix else ix in
    if is_infinity ix then Done (Err OverflowError) else ret_float ix).

(** [float_pow], case by case as in floatobject.c. *)
Definition float_pow (v w : num) : libm (result value) :=
  match to_double v with
  | Err e => Done (Err e)
  | Ok iv =>
  match to_double w with
  | Err e => Done (Err e)
  | Ok iw =>
      if iw =? 0 then ret_float 1
      else if is_nan iv then ret_float iv
      else if is_nan iw then ret_float (if iv =? 1 then 1 else iw)
      else if is_infinity iw then
        let iv := abs iv in
        if iv =? 1 then ret_float 1
        else if Bool.eqb (0 <? iw) (1 <? iv) then ret_float (abs iw)
        else ret_float 0
      else if is_infinity iv then
        let iw_is_odd := double_is_odd_integer iw in
        if 0 <? iw then ret_float (if iw_is_odd then iv else abs iv)
        else ret_float (if iw_is_odd then (if get_sign iv then neg_zero else zero) else 0)
      else if iv =? 0 then
        if iw <? 0 then Done (Err ZeroDivisionError)
        else ret_float (if double_is_odd_integer iw then iv else 0)
      else if iv <? 0 then
        if negb (iw =? c_floor iw) then complex_pow iv 0 iw
        else float_pow_finish (- iv) iw (double_is_odd_integer iw)
      else float_pow_finish iv iw false
  end
  end.

(** [**] on numbers: an int to a non-negative int power is exact
    ([long_pow]); every other case is [float_pow]. *)
Definition py_pow (a b : num) : libm (result value) :=
  match a, b with
  | Int x, Int y =>
      if (y <? 0)%Z then float_pow a b else Done (Ok (Num (Int (x ^ y)%Z)))
  | _, _ => float_pow a b
  end.

(** ** Instances and methods *)

(** An instance is its attribute dictionary. *)
Definition obj : Type := list (string * num).

Fixpoint lookup (name : string) (self : obj) : option num :=
  match self with
  | [] => None
  | (n, v) :: rest => if String.eqb name n then Some v else lookup name rest
  end.

(** A method body runs on [self], may call the math library, and ends in a
    value or an exception together with [self] as it left it. *)
Definition M (A : Type) : Type := obj -> libm (result A * obj).

Definition ret {A} (a : A) : M A := fun self => Done (Ok a, self).

Definition bind {A B} (m : M A) (k : A -> M B) : M B :=
  fun self =>
    libm_bind (m self) (fun '(r, self') =>
      match r with
      | Ok a => k a self'
      | Err e => Done (Err e, self')
      end).

Declare Scope py_scope.
Delimit Scope py_scope with py.
Notation "x <- m ;; k" := (bind m (fun x => k))
  (at level 61, m at next level, right associativity) : py_scope.
Notation "m ;; k" := (bind m (fun _ => k))
  (at level 61, right associativity) : py_scope.

(** [self.name] *)
Definition getattr (name : string) : M num :=
  fun self =>
    match lookup name self with
    | Some v => Done (Ok v, self)
    | None => Done (Err AttributeError, self)
    end.

(** [self.name = v] *)
Definition setattr (name : string) (v : num) : M unit :=
  fun self => Done (Ok tt, (name, v) :: self).

Definition lift {A} (r : result A) : M A := fun self => Done (r, self).

Definition lift_libm {A} (c : libm (result A)) : M A :=
  fun self => libm_bind c (fun r => Done (r, self)).

(** [Cls(args)]: a fresh instance, initialised by [__init__]. *)
Definition instantiate (init : M unit) : obj :=
  match init [] with
  | Done (_, self) => self
  | Call _ _ _ => []
  end.

(** A call [self.method(args)] under a given math library. *)
Definition run {A} (o : oracle) (m : M A) (self : obj) : result A * obj :=
  answer o (m self).

(** ** The schedulers *)

Local Open Scope py_scope.

Module ConstantLR.

Definition __init__ (learning_rate : num) : M unit :=
  setattr "learning_rate" learning_rate.

Definition get (t : Z) : M value :=
  learning_rate <- getattr "learning_rate" ;;
  ret (Num learning_rate).

Definition new (learning_rate : num) : obj := instantiate (__init__ learning_rate).

End ConstantLR.

Module InverseScalingLR.

Definition default_power : num := Float 0.5.

Definition __init__ (learning_rate : num) (power : option num) : M unit :=
  setattr "learning_rate" learning_rate ;;
  setattr "power" (match power with Some p => p | None => default_power end).

Definition get (t : Z) : M value :=
  learning_rate <- getattr "learning_rate" ;;
  base <- lift (py_add (Int t) (Int 1)) ;;
  power <- getattr "power" ;;
  denominator <- lift_libm (py_pow base power) ;;
  lift (py_truediv learning_rate denominator).

Definition new (learning_rate : num) (power : option num) : obj :=
  instantiate (__init__ learning_rate power).

End InverseScalingLR.

Module OptimalLR.

Definition default_t0 : num := Int 1000.
Definition default_alpha : num := Float 0x1.a36e2eb1c432dp-14.   (* 1e-4 *)

Definition __init__ (t0 alpha : option num) : M unit :=
  setattr "t0" (match t0 with Some v => v | None => default_t0 end) ;;
  setattr "alpha" (match alpha with Some v => v | None => default_alpha end).

Definition get (t : Z) : M value :=
  alpha <- getattr "alpha" ;;
  t0 <- getattr "t0" ;;
  sum <- lift (py_add (Int t) t0) ;;
  denominator <- lift (py_mul alpha sum) ;;
  lift (py_truediv (Float 1) (Num denominator)).

Definition new (t0 alpha : option num) : obj := instantiate (__init__ t0 alpha).

End OptimalLR.

(** The abstract base class [LRScheduler]: its one method, by variant. *)
Inductive LRScheduler : Type :=
| Constant
| InverseScaling
| Optimal.

Definition get (c : LRScheduler) : Z -> M value :=
  match c with
  | Constant => ConstantLR.get
  | InverseScaling => InverseScalingLR.get
  | Optimal => OptimalLR.get
  end.

(** ** The formulas of the specification

    [rateAt] as the specification words it, over the constructor's arguments
    and in the same arithmetic. *)

(** "[baseRate / (step + 1) ** power]" *)
Definition spec_InverseScaling_rateAt (baseRate power : num) (step : Z)
  : libm (result value) :=
  libm_bind (py_pow (Int (step + 1)) power) (fun denominator =>
  Done (result_bind denominator (py_truediv baseRate))).

(** "[alpha * (step + t0)]", the denominator of the next formula. *)
Definition spec_Optimal_denominator (t0 alpha : num) (step : Z) : result num :=
  result_bind (py_add (Int step) t0) (py_mul alpha).

(** "[1 / (alpha * (step + t0))]" *)
Definition spec_Optimal_rateAt (t0 alpha : num) (step : Z) : result value :=
  result_bind (spec_Optimal_denominator t0 alpha step) (fun denominator =>
  py_truediv (Float 1) (Num denominator)).

(** [x == 0] on a number. *)
Definition num_is_zero (n : num) : bool :=
  match n with
  | Int z => (z =? 0)%Z
  | Float x => x =? 0
  end.

(** [x == 0] on a value; a complex is zero when both parts are. *)
Definition value_is_zero (v : value) : bool :=
  match v with
  | Num n => num_is_zero n
  | Complex re im => (re =? 0) && (im =? 0)
  end.

(** [0 < x] on a number. *)
Definition num_pos (n : num) : bool :=
  match n with
  | Int z => (0 <? z)%Z
  | Float x => 0 <? x
  end.

(** The outcome of a computation that may only be a complex number or an
    exception. *)
Definition complex_or_error (r : result value) : Prop :=
  match r with
  | Ok (Complex _ _) => True
  | Ok (Num _) => False
  | Err _ => True
  end.

(** The outcome of a computation that may only be a float or an exception. *)
Definition float_or_error (r : result value) : Prop :=
  match r with
  | Ok (Num (Float _)) => True
  | Ok _ => False
  | Err _ => True
  end.

(** A number that is not a NaN nor an infinity. *)
Definition num_finite (n : num) : bool :=
  match n with
  | Int _ => true
  | Float x => negb (is_nan x) && negb (is_infinity x)
  end.

(** The attributes [get] reads, class by class. *)
Definition attributes (c : LRScheduler) : list string :=
  match c with
  | Constant => ["learning_rate"%string]
  | InverseScaling => ["learning_rate"%string; "power"%string]
  | Optimal => ["alpha"%string; "t0"%string]
  end.

(** The least positive int that is "too large to convert to float": halfway
    between the largest float and [2 ^ 1024]. *)
Definition int_too_large : Z := (2 ^ 1024 - 2 ^ 970)%Z.

(** The largest finite float, [sys.float_info.max]. *)
Definition float_max : float := 0x1.fffffffffffffp+1023.


(** A math library that answers [x] to every call, for closed examples. *)
Definition libm_const (x : float) : oracle := fun _ _ => x.

(** A math library that answers the first argument of every call: what
    [pow(x, 1.0)] is. *)
Definition libm_first : oracle := fun _ args => hd 1 args.


(** The answers of a correctly rounding math library to the calls
    [(-1.0) ** 0.5] makes: [hypot(-1.0, 0.0)] and [pow(1.0, 0.5)] are
    [1.0], [atan2(0.0, -1.0)] is pi, and at half of it [cos] is
    [6.123233995736766e-17] and [sin] is [1.0]. *)
Definition libm_at_minus_one : oracle :=
  fun f _ =>
    match f with
    | c_hypot => 1
    | c_pow => 1
    | c_atan2 => 0x1.921fb54442d18p+1
    | c_cos => 0x1.1a62633145c07p-54
    | c_sin => 1
    end.
(** ** Rounding to nearest, in integer arithmetic

    [binary_round_aux] of [SpecFloat] works on a mantissa, an exponent and
    the location of the rounded value between two mantissas.  The
    definitions below restate it on one integer, the code of a located
    value, where a right shift and the choice of the nearest even mantissa
    are monotone maps. *)

Local Close Scope py_scope.
Local Close Scope float_scope.

Definition b2z (b : bool) : Z := if b then 1 else 0.

Definition loc_code (l : location) : Z :=
  match l with
  | loc_Exact => 0
  | loc_Inexact Lt => 1
  | loc_Inexact Eq => 2
  | loc_Inexact Gt => 3
  end.

Definition rec_code (r : shr_record) : Z :=
  4 * shr_m r + 2 * b2z (shr_r r) + b2z (shr_s r).

(** [sfloor n d]: twice the floor of [n/d], plus one when [n/d] is not an integer. *)
Definition sfloor (n d : Z) : Z :=
  2 * (n / d) + (if n mod d =? 0 then 0 else 1).

Definition sticky_shift (c k : Z) : Z := sfloor c (2 ^ (k + 1)).

Definition rne (c : Z) : Z :=
  let m := c / 4 in
  match c mod 4 with
  | 0 | 1 => m
  | 2 => if Z.even m then m else m + 1
  | _ => m + 1
  end.

(** [binary_round_aux] on codes. *)
Definition round_model (s : bool) (c e : Z) : spec_float :=
  let n1 := fexp prec emax (Zdigits2 (c / 4) + e) - e in
  let c1 := sticky_shift c (Z.max 0 n1) in
  let e1 := e + Z.max 0 n1 in
  let m2 := rne c1 in
  let n2 := fexp prec emax (Zdigits2 m2 + e1) - e1 in
  let m3 := sticky_shift (4 * m2) (Z.max 0 n2) / 4 in
  let e3 := e1 + Z.max 0 n2 in
  match m3 with
  | Z0 => S754_zero s
  | Zpos p => if e3 <=? emax - prec then S754_finite s p e3 else S754_infinity s
  | Zneg _ => S754_nan
  end.

(** The canonical exponent of a located value, and its code there. *)
Definition cexp (c e : Z) : Z := fexp prec emax (Zdigits2 (c / 4) + e).
Definition ccode (c e : Z) : Z := sticky_shift c (cexp c e - e).

(** What [binary_round_aux] asks of its input: a non-negative mantissa at
    an exponent that is not above the canonical one. *)
Definition located (c e : Z) : Prop := 0 <= c /\ e <= cexp c e.

(** The float of a rounded mantissa [m] at a canonical exponent [e]. *)
Definition finish (s : bool) (m e : Z) : spec_float :=
  if m =? 0 then S754_zero s
  else if m =? 2 ^ 53 then
    if e + 1 <=? 971 then S754_finite s (2 ^ 52)%positive (e + 1) else S754_infinity s
  else if e <=? 971 then S754_finite s (Z.to_pos m) e else S754_infinity s.

(** A rounded mantissa at a canonical exponent. *)
Definition canon (m e : Z) : Prop :=
  -1074 <= e /\ 0 <= m <= 2 ^ 53 /\ (2 ^ 52 <= m \/ e = -1074).

(** The value located by [c] at [e] is at most the one located by [c'] at
    [e']: compared at the larger of the two exponents. *)
Definition loc_le (c e c' e' : Z) : Prop :=
  sticky_shift c (Z.max e e' - e) <= sticky_shift c' (Z.max e e' - e').

(** The code at exponent [e] of the rational [n / d] scaled by [2 ^ - B]. *)
Definition code_at (B n d e : Z) : Z := sfloor (2 * n) (d * 2 ^ (e + B)).

(** [r] is the float nearest to the rational [n / d] scaled by [2 ^ - B]. *)
Definition rounds_to (r : spec_float) (B n d : Z) : Prop :=
  exists e, 0 < d /\ 0 <= n /\ 0 <= e + B /\
            e <= cexp (code_at B n d e) e /\
            r = round_model false (code_at B n d e) e.

(** The value of a finite float in units of [2 ^ -1074]. *)
Definition ival (m : positive) (e : Z) : Z := Z.pos m * 2 ^ (e + 1074).

(** * Properties *)

(** ** Rounding *)

Lemma digits2_pos_size p : digits2_pos p = Pos.size p.
Proof. induction p; simpl; congruence. Qed.

Lemma Zdigits2_log2 m : 0 < m -> Zdigits2 m = Z.log2 m + 1.
Proof.
  destruct m as [|p|p]; try lia. intros _. simpl.
  rewrite digits2_pos_size.
  destruct p; simpl; try reflexivity.
  - rewrite Pos2Z.inj_succ. lia.
  - rewrite Pos2Z.inj_succ. lia.
Qed.

Lemma sfloor_mono n1 d1 n2 d2 :
  0 < d1 -> 0 < d2 -> n1 * d2 <= n2 * d1 -> sfloor n1 d1 <= sfloor n2 d2.
Proof.
  intros Hd1 Hd2 H. unfold sfloor.
  pose proof (Z.div_mod n1 d1 ltac:(lia)) as E1.
  pose proof (Z.div_mod n2 d2 ltac:(lia)) as E2.
  pose proof (Z.mod_pos_bound n1 d1 Hd1) as B1.
  pose proof (Z.mod_pos_bound n2 d2 Hd2) as B2.
  assert (Hq : n1 / d1 <= n2 / d2).
  { apply Z.div_le_lower_bound; [lia |].
    (* d2 * (n1/d1) <= n2 *)
    assert (d1 * (d2 * (n1 / d1)) <= d1 * n2) by nia.
    nia. }
  destruct (Z.eqb_spec (n1 mod d1) 0) as [Z1 | Z1];
  destruct (Z.eqb_spec (n2 mod d2) 0) as [Z2 | Z2]; try lia.
  (* n1 not a multiple, n2 a multiple: the quotients differ *)
  assert (n1 / d1 < n2 / d2); [| lia].
  assert (n1 / d1 <> n2 / d2); [| lia].
  intros Heq. rewrite Z2 in E2. rewrite <- Heq in E2. nia.
Qed.

Lemma sfloor_sfloor n d D :
  0 < d -> 0 < D -> sfloor (sfloor n d) (2 * D) = sfloor n (d * D).
Proof.
  intros Hd HD. unfold sfloor.
  set (q := n / d). set (r := n mod d).
  assert (En : n = d * q + r) by (apply Z.div_mod; lia).
  assert (Br : 0 <= r < d) by (apply Z.mod_pos_bound; lia).
  set (s := if r =? 0 then 0 else 1).
  assert (Bs : 0 <= s <= 1) by (subst s; destruct (r =? 0); lia).
  assert (Es : s = 0 <-> r = 0) by (subst s; destruct (Z.eqb_spec r 0); lia).
  set (Q := q / D). set (R := q mod D).
  assert (Eq : q = D * Q + R) by (apply Z.div_mod; lia).
  assert (BR : 0 <= R < D) by (apply Z.mod_pos_bound; lia).
  assert (H1 : (2 * q + s) / (2 * D) = Q).
  { symmetry. apply Z.div_unique with (r := 2 * R + s); lia. }
  assert (H2 : (2 * q + s) mod (2 * D) = 2 * R + s).
  { symmetry. apply Z.mod_unique with (q := Q); lia. }
  assert (H3 : n / (d * D) = Q).
  { symmetry. apply Z.div_unique with (r := d * R + r); nia. }
  assert (H4 : n mod (d * D) = d * R + r).
  { symmetry. apply Z.mod_unique with (q := Q); nia. }
  rewrite H1, H2, H3, H4.
  destruct (Z.eqb_spec (2 * R + s) 0); destruct (Z.eqb_spec (d * R + r) 0); try lia; nia.
Qed.

Lemma sfloor_exact n d : 0 < d -> sfloor (n * d) d = 2 * n.
Proof.
  intros Hd. unfold sfloor. rewrite Z.div_mul, Z.mod_mul by lia. simpl. lia.
Qed.

Lemma sfloor_nonneg n d : 0 < d -> 0 <= n -> 0 <= sfloor n d.
Proof.
  intros Hd Hn. unfold sfloor.
  pose proof (Z.div_pos n d Hn Hd). destruct (n mod d =? 0); lia.
Qed.

Lemma sticky_shift_0 c : sticky_shift c 0 = c.
Proof.
  unfold sticky_shift, sfloor. change (2 ^ (0 + 1)) with 2.
  pose proof (Z.div_mod c 2 ltac:(lia)). pose proof (Z.mod_pos_bound c 2 ltac:(lia)).
  destruct (Z.eqb_spec (c mod 2) 0); lia.
Qed.

Lemma sticky_shift_add c a b :
  0 <= a -> 0 <= b -> sticky_shift (sticky_shift c a) b = sticky_shift c (a + b).
Proof.
  intros Ha Hb. unfold sticky_shift.
  replace (2 ^ (b + 1)) with (2 * 2 ^ b) by (rewrite Z.pow_add_r by lia; lia).
  rewrite sfloor_sfloor by (try apply Z.pow_pos_nonneg; lia).
  f_equal. rewrite <- Z.pow_add_r by lia. f_equal. lia.
Qed.

Lemma sticky_shift_mono c c' k : 0 <= k -> c <= c' -> sticky_shift c k <= sticky_shift c' k.
Proof.
  intros Hk H. unfold sticky_shift.
  assert (0 < 2 ^ (k + 1)) by (apply Z.pow_pos_nonneg; lia).
  apply sfloor_mono; nia.
Qed.

Lemma rne_mono c c' : c <= c' -> rne c <= rne c'.
Proof.
  intros H. unfold rne.
  pose proof (Z.div_mod c 4 ltac:(lia)). pose proof (Z.mod_pos_bound c 4 ltac:(lia)).
  pose proof (Z.div_mod c' 4 ltac:(lia)). pose proof (Z.mod_pos_bound c' 4 ltac:(lia)).
  assert (c / 4 <= c' / 4) by (apply Z.div_le_mono; lia).
  destruct (Z.eq_dec (c / 4) (c' / 4)) as [E | E].
  - rewrite <- E in *.
    assert (c mod 4 <= c' mod 4) by lia.
    destruct (c mod 4) as [|[[|[]|]|[|[]|]|]|]; destruct (c' mod 4) as [|[[|[]|]|[|[]|]|]|];
      try lia; destruct (Z.even (c / 4)); lia.
  - assert (c / 4 + 1 <= c' / 4) by lia.
    destruct (c mod 4) as [|[[|[]|]|[|[]|]|]|]; destruct (c' mod 4) as [|[[|[]|]|[|[]|]|]|];
      try lia; destruct (Z.even (c / 4)); destruct (Z.even (c' / 4)); lia.
Qed.

(** *** Shift records as codes *)

Lemma rec_code_of_loc m l : rec_code (shr_record_of_loc m l) = 4 * m + loc_code l.
Proof. destruct l as [|[]]; unfold rec_code; simpl; lia. Qed.

Lemma shr_m_code r : shr_m r = rec_code r / 4.
Proof.
  unfold rec_code.
  apply Z.div_unique with (r := 2 * b2z (shr_r r) + b2z (shr_s r)); [| lia].
  destruct (shr_r r), (shr_s r); simpl; lia.
Qed.

Lemma loc_code_rec r : loc_code (loc_of_shr_record r) = rec_code r mod 4.
Proof.
  unfold rec_code.
  apply Z.mod_unique with (q := shr_m r); destruct r as [m [] []]; simpl; lia.
Qed.

Lemma round_nearest_even_rne m l :
  round_nearest_even m l = rne (4 * m + loc_code l).
Proof.
  unfold rne.
  assert (B : 0 <= loc_code l < 4) by (destruct l as [|[]]; simpl; lia).
  assert (E1 : (4 * m + loc_code l) / 4 = m).
  { symmetry. apply Z.div_unique with (r := loc_code l); lia. }
  assert (E2 : (4 * m + loc_code l) mod 4 = loc_code l).
  { symmetry. apply Z.mod_unique with (q := m); lia. }
  rewrite E1, E2. destruct l as [|[]]; reflexivity.
Qed.

Lemma round_nearest_even_rec r :
  round_nearest_even (shr_m r) (loc_of_shr_record r) = rne (rec_code r).
Proof.
  rewrite round_nearest_even_rne, loc_code_rec, shr_m_code.
  f_equal. pose proof (Z.div_mod (rec_code r) 4 ltac:(lia)). lia.
Qed.

Lemma sfloor_4 m t : 0 <= t < 4 -> sfloor (4 * m + t) 4 = 2 * m + (if t =? 0 then 0 else 1).
Proof.
  intros Ht. unfold sfloor.
  replace ((4 * m + t) / 4) with m by (apply Z.div_unique with (r := t); lia).
  replace ((4 * m + t) mod 4) with t by (apply Z.mod_unique with (q := m); lia).
  reflexivity.
Qed.

Lemma shr_1_code r :
  0 <= shr_m r ->
  rec_code (shr_1 r) = sticky_shift (rec_code r) 1 /\ 0 <= shr_m (shr_1 r).
Proof.
  destruct r as [m rb sb]. cbn [shr_m]. intros Hm.
  unfold sticky_shift. change (2 ^ (1 + 1)) with 4.
  unfold rec_code at 2. cbn [shr_m shr_r shr_s].
  replace (4 * m + 2 * b2z rb + b2z sb) with (4 * m + (2 * b2z rb + b2z sb)) by lia.
  rewrite sfloor_4 by (destruct rb, sb; simpl; lia).
  assert (Hif : (if 2 * b2z rb + b2z sb =? 0 then 0 else 1) = b2z (rb || sb))
    by (destruct rb, sb; reflexivity).
  rewrite Hif. clear Hif.
  destruct m as [| p | p]; [| | lia].
  - unfold rec_code; cbn [shr_1 shr_m shr_r shr_s].
    generalize (b2z (rb || sb)); intros z. cbn [b2z]. split; lia.
  - destruct p as [p | p |]; unfold rec_code; cbn [shr_1 shr_m shr_r shr_s];
      [rewrite (Pos2Z.inj_xI p) | rewrite (Pos2Z.inj_xO p) |];
      generalize (b2z (rb || sb)); intros z; cbn [b2z]; split; lia.
Qed.

Lemma iter_pos_nat {A} (f : A -> A) p x :
  iter_pos f p x = Nat.iter (Pos.to_nat p) f x.
Proof.
  revert x. induction p as [p IH | p IH |]; intros x; cbn [iter_pos].
  - rewrite !IH. change (f x) with (Nat.iter 1 f x).
    rewrite <- !Nat.iter_add. f_equal. lia.
  - rewrite !IH, <- Nat.iter_add. f_equal. lia.
  - reflexivity.
Qed.

Lemma iter_shr_1_code n r :
  0 <= shr_m r ->
  rec_code (Nat.iter n shr_1 r) = sticky_shift (rec_code r) (Z.of_nat n)
  /\ 0 <= shr_m (Nat.iter n shr_1 r).
Proof.
  intros Hm. induction n as [| n [IH1 IH2]].
  - simpl. rewrite sticky_shift_0. auto.
  - rewrite Nat2Z.inj_succ.
    change (Nat.iter (S n) shr_1 r) with (shr_1 (Nat.iter n shr_1 r)).
    destruct (shr_1_code (Nat.iter n shr_1 r) IH2) as [E P].
    split; [| exact P].
    rewrite E, IH1, sticky_shift_add by lia. f_equal.
Qed.

(** [shr] on codes: a shift by [n] when [n] is positive. *)
Lemma shr_code r e n :
  0 <= shr_m r ->
  rec_code (fst (shr r e n)) = sticky_shift (rec_code r) (Z.max 0 n)
  /\ snd (shr r e n) = e + Z.max 0 n
  /\ 0 <= shr_m (fst (shr r e n)).
Proof.
  intros Hm. destruct n as [| p | p]; cbn [shr fst snd].
  - rewrite sticky_shift_0. repeat split; try lia; assumption.
  - rewrite iter_pos_nat.
    destruct (iter_shr_1_code (Pos.to_nat p) r Hm) as [E P].
    rewrite E, positive_nat_Z. repeat split; try lia; assumption.
  - rewrite sticky_shift_0. repeat split; try lia; assumption.
Qed.

Lemma rne_nonneg c : 0 <= c -> 0 <= rne c.
Proof.
  intros H. change 0 with (rne 0) at 1. now apply rne_mono.
Qed.

Lemma rec_code_nonneg r : 0 <= shr_m r -> 0 <= rec_code r.
Proof. destruct r as [m [] []]; unfold rec_code; cbn [shr_m shr_r shr_s b2z]; lia. Qed.

Lemma loc_code_bound l : 0 <= loc_code l < 4.
Proof. destruct l as [|[]]; simpl; lia. Qed.

Lemma binary_round_aux_model s m e l :
  0 <= m ->
  binary_round_aux prec emax s m e l = round_model s (4 * m + loc_code l) e.
Proof.
  intros Hm. unfold binary_round_aux, round_model, shr_fexp.
  pose proof (loc_code_bound l) as Bl.
  replace ((4 * m + loc_code l) / 4) with m
    by (apply Z.div_unique with (r := loc_code l); lia).
  set (n1 := fexp prec emax (Zdigits2 m + e) - e).
  assert (H0 : 0 <= shr_m (shr_record_of_loc m l)) by (destruct l as [|[]]; exact Hm).
  destruct (shr_code (shr_record_of_loc m l) e n1 H0) as (C1 & E1 & P1).
  destruct (shr (shr_record_of_loc m l) e n1) as [mrs' e'].
  cbn [fst snd] in C1, E1, P1. rewrite rec_code_of_loc in C1.
  rewrite round_nearest_even_rec, C1, E1.
  set (c1 := sticky_shift (4 * m + loc_code l) (Z.max 0 n1)).
  set (e1 := e + Z.max 0 n1).
  assert (Hm2 : 0 <= rne c1).
  { apply rne_nonneg. unfold c1. rewrite <- C1. now apply rec_code_nonneg. }
  set (m2 := rne c1) in *.
  set (n2 := fexp prec emax (Zdigits2 m2 + e1) - e1).
  assert (H2 : 0 <= shr_m (shr_record_of_loc m2 loc_Exact)) by exact Hm2.
  destruct (shr_code (shr_record_of_loc m2 loc_Exact) e1 n2 H2) as (C2 & E2 & P2).
  destruct (shr (shr_record_of_loc m2 loc_Exact) e1 n2) as [mrs'' e''].
  cbn [fst snd] in C2, E2, P2. rewrite rec_code_of_loc in C2. cbn [loc_code] in C2.
  rewrite Z.add_0_r in C2.
  rewrite shr_m_code, C2, E2. reflexivity.
Qed.

(** *** Digits *)

Lemma Zdigits2_0 : Zdigits2 0 = 0.
Proof. reflexivity. Qed.

Lemma Zdigits2_bounds m :
  0 < m -> 1 <= Zdigits2 m /\ 2 ^ (Zdigits2 m - 1) <= m < 2 ^ Zdigits2 m.
Proof.
  intros Hm. rewrite Zdigits2_log2 by exact Hm.
  pose proof (Z.log2_nonneg m). pose proof (Z.log2_spec m Hm) as S.
  replace (Z.log2 m + 1 - 1) with (Z.log2 m) by lia.
  replace (Z.log2 m + 1) with (Z.succ (Z.log2 m)) by lia. lia.
Qed.

Lemma Zdigits2_unique m k :
  1 <= k -> 2 ^ (k - 1) <= m < 2 ^ k -> Zdigits2 m = k.
Proof.
  intros Hk H.
  assert (0 < m) by (assert (0 < 2 ^ (k - 1)) by (apply Z.pow_pos_nonneg; lia); lia).
  rewrite Zdigits2_log2 by assumption.
  rewrite (Z.log2_unique m (k - 1)); [lia | lia |].
  replace (Z.succ (k - 1)) with k by lia. exact H.
Qed.

Lemma Zdigits2_nonneg m : 0 <= Zdigits2 m.
Proof. destruct m; simpl; lia. Qed.

Lemma Zdigits2_lt_pow m k : 0 <= m -> 0 <= k -> m < 2 ^ k -> Zdigits2 m <= k.
Proof.
  intros Hm Hk H. destruct (Z.eq_dec m 0) as [-> | N]; [simpl; lia |].
  destruct (Zdigits2_bounds m ltac:(lia)) as (D1 & D2 & D3).
  destruct (Z_le_gt_dec (Zdigits2 m) k) as [L | G]; [exact L | exfalso].
  assert (2 ^ k <= 2 ^ (Zdigits2 m - 1)) by (apply Z.pow_le_mono_r; lia). lia.
Qed.

Lemma Zdigits2_ge_pow m k : 0 <= k -> 2 ^ k <= m -> k + 1 <= Zdigits2 m.
Proof.
  intros Hk H.
  assert (0 < 2 ^ k) by (apply Z.pow_pos_nonneg; lia).
  destruct (Zdigits2_bounds m ltac:(lia)) as (D1 & D2 & D3).
  destruct (Z_le_gt_dec (k + 1) (Zdigits2 m)) as [L | G]; [exact L | exfalso].
  assert (2 ^ Zdigits2 m <= 2 ^ k) by (apply Z.pow_le_mono_r; lia). lia.
Qed.

Lemma Zdigits2_mono m m' : 0 <= m -> m <= m' -> Zdigits2 m <= Zdigits2 m'.
Proof.
  intros Hm H. destruct (Z.eq_dec m 0) as [-> | N]; [apply Zdigits2_nonneg |].
  destruct (Zdigits2_bounds m ltac:(lia)) as (D1 & D2 & D3).
  pose proof (Zdigits2_ge_pow m' (Zdigits2 m - 1) ltac:(lia) ltac:(lia)). lia.
Qed.

Lemma Zdigits2_shift m n :
  0 <= n -> 2 ^ n <= m -> Zdigits2 (m / 2 ^ n) = Zdigits2 m - n.
Proof.
  intros Hn H.
  assert (P : 0 < 2 ^ n) by (apply Z.pow_pos_nonneg; lia).
  destruct (Zdigits2_bounds m ltac:(lia)) as (D1 & D2 & D3).
  pose proof (Zdigits2_ge_pow m n Hn H) as G.
  apply Zdigits2_unique; [lia |].
  split.
  - apply Z.div_le_lower_bound; [lia |].
    rewrite <- Z.pow_add_r by lia. replace (n + (Zdigits2 m - n - 1)) with (Zdigits2 m - 1) by lia.
    exact D2.
  - apply Z.div_lt_upper_bound; [lia |].
    rewrite <- Z.pow_add_r by lia. replace (n + (Zdigits2 m - n)) with (Zdigits2 m) by lia.
    exact D3.
Qed.

Lemma sticky_shift_div4 c n : 0 <= n -> sticky_shift c n / 4 = c / 4 / 2 ^ n.
Proof.
  intros Hn. unfold sticky_shift, sfloor.
  assert (P : 0 < 2 ^ n) by (apply Z.pow_pos_nonneg; lia).
  assert (P1 : 2 ^ (n + 1) = 2 * 2 ^ n) by (rewrite Z.pow_add_r by lia; lia).
  set (q := c / 2 ^ (n + 1)).
  set (s := if c mod 2 ^ (n + 1) =? 0 then 0 else 1).
  assert (Bs : 0 <= s <= 1) by (subst s; destruct (_ =? 0); lia).
  replace ((2 * q + s) / 4) with (q / 2).
  2:{ pose proof (Z.div_mod q 2 ltac:(lia)). pose proof (Z.mod_pos_bound q 2 ltac:(lia)).
      apply Z.div_unique with (r := 2 * (q mod 2) + s); lia. }
  unfold q. rewrite !Z.div_div by lia. f_equal. lia.
Qed.

Lemma fexp_eq x : fexp prec emax x = Z.max (x - 53) (-1074).
Proof. reflexivity. Qed.

Lemma rne_bounds c : c / 4 <= rne c <= c / 4 + 1.
Proof.
  unfold rne. pose proof (Z.mod_pos_bound c 4 ltac:(lia)).
  destruct (c mod 4) as [|[[|[]|]|[|[]|]|]|]; try lia; destruct (Z.even (c / 4)); lia.
Qed.

(** *** Rounding at the canonical exponent *)

Lemma located_canonical c e :
  located c e ->
  -1074 <= cexp c e /\
  0 <= ccode c e / 4 < 2 ^ 53 /\
  (2 ^ 52 <= ccode c e / 4 \/ cexp c e = -1074).
Proof.
  intros [Hc He]. unfold ccode. unfold cexp in *. rewrite fexp_eq in *.
  set (m := c / 4) in *. set (d := Zdigits2 m) in *.
  assert (Hm : 0 <= m) by (apply Z.div_pos; lia).
  set (e1 := Z.max (d + e - 53) (-1074)) in *.
  rewrite sticky_shift_div4 by lia. fold m.
  assert (P : 0 < 2 ^ (e1 - e)) by (apply Z.pow_pos_nonneg; lia).
  split; [lia |].
  destruct (Z.eq_dec m 0) as [Z0 | NZ].
  - assert (D0 : d = 0) by (unfold d; rewrite Z0; reflexivity).
    rewrite Z0. rewrite Z.div_0_l by lia. split; [lia |]. right.
    unfold e1 in *. lia.
  - destruct (Zdigits2_bounds m ltac:(lia)) as (D1 & D2 & D3). fold d in D1, D2, D3.
    split; [split |].
    + apply Z.div_pos; lia.
    + apply Z.div_lt_upper_bound; [lia |].
      assert (2 ^ d <= 2 ^ (e1 - e + 53)) by (apply Z.pow_le_mono_r; lia).
      rewrite Z.pow_add_r in * by lia. lia.
    + destruct (Z.eq_dec e1 (-1074)) as [E | E]; [right; exact E | left].
      assert (E1 : e1 - e = d - 53) by lia.
      apply Z.div_le_lower_bound; [lia |].
      rewrite E1. rewrite <- Z.pow_add_r by lia.
      replace (d - 53 + 52) with (d - 1) by lia. exact D2.
Qed.

Lemma round_model_finish s c e :
  located c e -> round_model s c e = finish s (rne (ccode c e)) (cexp c e).
Proof.
  intros L. destruct (located_canonical c e L) as (E1 & [M1 M2] & M3).
  destruct L as [Hc He].
  unfold round_model. fold (cexp c e).
  replace (Z.max 0 (cexp c e - e)) with (cexp c e - e) by lia.
  fold (ccode c e).
  replace (e + (cexp c e - e)) with (cexp c e) by lia.
  pose proof (rne_bounds (ccode c e)) as B.
  set (m2 := rne (ccode c e)) in *. set (e1 := cexp c e) in *.
  unfold finish.
  destruct (Z.eqb_spec m2 0) as [Z0 | NZ].
  { rewrite Z0. simpl Zdigits2. rewrite Z.add_0_l, fexp_eq.
    replace (Z.max 0 (Z.max (e1 - 53) (-1074) - e1)) with 0 by lia.
    rewrite sticky_shift_0. reflexivity. }
  destruct (Z.eqb_spec m2 (2 ^ 53)) as [T | NT].
  { rewrite T. change (Zdigits2 (2 ^ 53)) with 54. rewrite fexp_eq.
    replace (Z.max 0 (Z.max (54 + e1 - 53) (-1074) - e1)) with 1 by lia.
    change (sticky_shift (4 * 2 ^ 53) 1 / 4) with (Z.pos (2 ^ 52)).
    cbv iota. reflexivity. }
  assert (B2 : 0 < m2 < 2 ^ 53) by lia.
  assert (N2 : fexp prec emax (Zdigits2 m2 + e1) - e1 = 0).
  { rewrite fexp_eq.
    pose proof (Zdigits2_lt_pow m2 53 ltac:(lia) ltac:(lia) ltac:(lia)).
    destruct M3 as [M3 | M3].
    - pose proof (Zdigits2_ge_pow m2 52 ltac:(lia) ltac:(lia)). lia.
    - lia. }
  rewrite N2. change (Z.max 0 0) with 0. rewrite sticky_shift_0, Z.add_0_r.
  replace (4 * m2 / 4) with m2 by (rewrite Z.mul_comm, Z.div_mul; lia).
  destruct m2 as [| p | p]; try lia. reflexivity.
Qed.

Lemma located_canon c e : located c e -> canon (rne (ccode c e)) (cexp c e).
Proof.
  intros L. destruct (located_canonical c e L) as (E1 & [M1 M2] & M3).
  pose proof (rne_bounds (ccode c e)). unfold canon. lia.
Qed.

Lemma finish_valid s m e : canon m e -> valid_binary (finish s m e) = true.
Proof.
  intros (E & M & C). unfold finish.
  destruct (Z.eqb_spec m 0); [reflexivity |].
  destruct (Z.eqb_spec m (2 ^ 53)) as [T | NT].
  - destruct (Z.leb_spec (e + 1) 971); [| reflexivity].
    unfold valid_binary, bounded, canonical_mantissa.
    change (Z.pos (digits2_pos (2 ^ 52))) with 53.
    rewrite fexp_eq. change (emax - prec) with 971.
    apply andb_true_intro. split; [apply Z.eqb_eq | apply Z.leb_le]; lia.
  - destruct (Z.leb_spec e 971); [| reflexivity].
    unfold valid_binary, bounded, canonical_mantissa.
    destruct m as [| p | p]; try lia. cbn [Z.to_pos].
    change (Z.pos (digits2_pos p)) with (Zdigits2 (Z.pos p)).
    pose proof (Zdigits2_lt_pow (Z.pos p) 53 ltac:(lia) ltac:(lia) ltac:(lia)).
    rewrite fexp_eq. change (emax - prec) with 971.
    apply andb_true_intro. split; [apply Z.eqb_eq | apply Z.leb_le; lia].
    destruct C as [C | C].
    + pose proof (Zdigits2_ge_pow (Z.pos p) 52 ltac:(lia) ltac:(lia)). lia.
    + lia.
Qed.

Lemma finish_le m e m' e' :
  canon m e -> canon m' e' ->
  e < e' \/ (e = e' /\ m <= m') ->
  SFleb (finish false m e) (finish false m' e') = true.
Proof.
  intros (E & M & C) (E' & M' & C') H. unfold finish.
  destruct (Z.eqb_spec m 0) as [Z0 | NZ].
  { destruct (Z.eqb_spec m' 0); [reflexivity |].
    destruct (Z.eqb_spec m' (2 ^ 53)).
    - destruct (e' + 1 <=? 971); reflexivity.
    - destruct (e' <=? 971); reflexivity. }
  destruct (Z.eqb_spec m' 0) as [Z0' | NZ']; [exfalso; lia |].
  unfold SFleb.
  destruct (Z.eqb_spec m (2 ^ 53)) as [T | NT];
  destruct (Z.eqb_spec m' (2 ^ 53)) as [T' | NT'];
  repeat match goal with
         | |- context [?a <=? ?b] => destruct (Z.leb_spec a b)
         end;
  cbn [SFcompare]; try reflexivity; try (exfalso; lia);
  repeat match goal with
         | |- context [?a ?= ?b] => destruct (Z.compare_spec a b)
         end; try reflexivity; try (exfalso; lia);
  rewrite <- ?Pos.compare_cont_spec; unfold Pos.compare;
  try match goal with
      | |- context [Pos.compare_cont Eq ?a ?b] =>
          change (Pos.compare_cont Eq a b) with (Pos.compare a b);
          destruct (Pos.compare_spec a b)
      end; try reflexivity; exfalso; lia.
Qed.

(** *** Rounding is monotone *)

Lemma cexp_mono c e c' e' :
  located c e -> located c' e' -> loc_le c e c' e' -> cexp c e <= cexp c' e'.
Proof.
  intros [Hc He] [Hc' He'] H. unfold loc_le in H. unfold cexp in *.
  rewrite !fexp_eq in *.
  set (E := Z.max e e') in *. set (k := E - e) in *. set (k' := E - e') in *.
  assert (Hk : 0 <= k) by lia. assert (Hk' : 0 <= k') by lia.
  set (m := c / 4) in *. set (m' := c' / 4) in *.
  assert (Hm : 0 <= m) by (apply Z.div_pos; lia).
  assert (Hm' : 0 <= m') by (apply Z.div_pos; lia).
  assert (Hq : m / 2 ^ k <= m' / 2 ^ k').
  { unfold m, m'. rewrite <- !sticky_shift_div4 by lia. apply Z.div_le_mono; lia. }
  assert (P : 0 < 2 ^ k) by (apply Z.pow_pos_nonneg; lia).
  assert (P' : 0 < 2 ^ k') by (apply Z.pow_pos_nonneg; lia).
  pose proof (Zdigits2_nonneg m) as D. pose proof (Zdigits2_nonneg m') as D'.
  destruct (Z_lt_le_dec m (2 ^ k)) as [Small | Big].
  - pose proof (Zdigits2_lt_pow m k Hm Hk Small).
    destruct (Z.eq_dec E e) as [Ee | Ee].
    + assert (k = 0) by lia. assert (m = 0) by (replace k with 0 in Small by lia; simpl in Small; lia).
      assert (Zdigits2 m = 0) by (replace m with 0 by lia; reflexivity). lia.
    + lia.
  - assert (1 <= m / 2 ^ k) by (apply Z.div_le_lower_bound; lia).
    assert (Big' : 2 ^ k' <= m').
    { destruct (Z_lt_le_dec m' (2 ^ k')) as [S' | B']; [| exact B'].
      rewrite (Z.div_small m' (2 ^ k')) in Hq by lia. lia. }
    pose proof (Zdigits2_shift m k Hk Big) as S1.
    pose proof (Zdigits2_shift m' k' Hk' Big') as S2.
    pose proof (Zdigits2_mono (m / 2 ^ k) (m' / 2 ^ k') ltac:(lia) Hq). lia.
Qed.

Theorem round_model_mono c e c' e' :
  located c e -> located c' e' -> loc_le c e c' e' ->
  SFleb (round_model false c e) (round_model false c' e') = true.
Proof.
  intros L L' H.
  rewrite !round_model_finish by assumption.
  pose proof (cexp_mono c e c' e' L L' H) as CE.
  apply finish_le; try (apply located_canon; assumption).
  destruct (Z.eq_dec (cexp c e) (cexp c' e')) as [Eq | Ne]; [right | left; lia].
  split; [exact Eq |]. apply rne_mono. unfold ccode.
  destruct L as [Hc He], L' as [Hc' He']. unfold loc_le in H.
  set (E := Z.max e e') in *.
  replace (cexp c e - e) with ((E - e) + (cexp c e - E)) by lia.
  replace (cexp c' e' - e') with ((E - e') + (cexp c e - E)) by lia.
  rewrite <- !sticky_shift_add by lia.
  apply sticky_shift_mono; lia.
Qed.

(** *** Located rationals *)

Lemma sfloor_scale n d j : 0 < d -> 0 < j -> sfloor (n * j) (d * j) = sfloor n d.
Proof.
  intros Hd Hj. unfold sfloor.
  rewrite Z.div_mul_cancel_r by lia.
  rewrite Z.mul_mod_distr_r by lia.
  destruct (Z.eqb_spec (n mod d) 0) as [E | E].
  - rewrite E. reflexivity.
  - destruct (Z.eqb_spec (n mod d * j) 0); [nia | reflexivity].
Qed.

Lemma code_at_shift B n d e k :
  0 < d -> 0 <= e + B -> 0 <= k ->
  sticky_shift (code_at B n d e) k = code_at B n d (e + k).
Proof.
  intros Hd He Hk. unfold sticky_shift, code_at.
  assert (0 < 2 ^ (e + B)) by (apply Z.pow_pos_nonneg; lia).
  assert (0 < 2 ^ k) by (apply Z.pow_pos_nonneg; lia).
  replace (2 ^ (k + 1)) with (2 * 2 ^ k) by (rewrite Z.pow_add_r by lia; lia).
  rewrite sfloor_sfloor; [| apply Z.mul_pos_pos; lia | lia].
  f_equal. replace (e + k + B) with (e + B + k) by lia.
  rewrite (Z.pow_add_r 2 (e + B) k) by lia. ring.
Qed.

Lemma code_at_mono B n d n' d' e :
  0 < d -> 0 < d' -> 0 <= e + B -> n * d' <= n' * d ->
  code_at B n d e <= code_at B n' d' e.
Proof.
  intros Hd Hd' He H. unfold code_at.
  assert (0 < 2 ^ (e + B)) by (apply Z.pow_pos_nonneg; lia).
  apply sfloor_mono; try (apply Z.mul_pos_pos; lia).
  replace (2 * n * (d' * 2 ^ (e + B))) with ((n * d') * (2 * 2 ^ (e + B))) by ring.
  replace (2 * n' * (d * 2 ^ (e + B))) with ((n' * d) * (2 * 2 ^ (e + B))) by ring.
  apply Z.mul_le_mono_nonneg_r; lia.
Qed.

Lemma code_at_nonneg B n d e : 0 < d -> 0 <= e + B -> 0 <= n -> 0 <= code_at B n d e.
Proof.
  intros Hd He Hn. unfold code_at.
  assert (0 < 2 ^ (e + B)) by (apply Z.pow_pos_nonneg; lia).
  apply sfloor_nonneg; [apply Z.mul_pos_pos; lia | lia].
Qed.

Lemma code_at_exact B m e : 0 <= e + B -> code_at B (m * 2 ^ (e + B)) 1 e = 4 * m.
Proof.
  intros He. unfold code_at.
  assert (0 < 2 ^ (e + B)) by (apply Z.pow_pos_nonneg; lia).
  replace (2 * (m * 2 ^ (e + B))) with ((2 * m) * 2 ^ (e + B)) by ring.
  rewrite Z.mul_1_l, sfloor_exact by lia. lia.
Qed.

Lemma loc_le_code_at B n d e n' d' e' :
  0 < d -> 0 < d' -> 0 <= e + B -> 0 <= e' + B -> n * d' <= n' * d ->
  loc_le (code_at B n d e) e (code_at B n' d' e') e'.
Proof.
  intros Hd Hd' He He' H. unfold loc_le.
  rewrite !code_at_shift by lia.
  replace (e + (Z.max e e' - e)) with (Z.max e e') by lia.
  replace (e' + (Z.max e e' - e')) with (Z.max e e') by lia.
  apply code_at_mono; lia.
Qed.

(** Rounding is monotone in the rational it rounds. *)
Theorem round_model_mono_rat B n d e n' d' e' :
  0 < d -> 0 < d' -> 0 <= e + B -> 0 <= e' + B -> 0 <= n ->
  n * d' <= n' * d ->
  e <= cexp (code_at B n d e) e ->
  e' <= cexp (code_at B n' d' e') e' ->
  SFleb (round_model false (code_at B n d e) e)
        (round_model false (code_at B n' d' e') e') = true.
Proof.
  intros Hd Hd' He He' Hn H L L'.
  assert (0 <= n') by nia.
  apply round_model_mono.
  - split; [apply code_at_nonneg; lia | exact L].
  - split; [apply code_at_nonneg; lia | exact L'].
  - apply loc_le_code_at; assumption.
Qed.

Theorem rounds_to_mono r B n d r' n' d' :
  rounds_to r B n d -> rounds_to r' B n' d' -> n * d' <= n' * d ->
  SFleb r r' = true.
Proof.
  intros (e & Hd & Hn & He & L & ->) (e' & Hd' & Hn' & He' & L' & ->) H.
  apply round_model_mono_rat; assumption.
Qed.

Lemma round_model_shape s c e :
  located c e ->
  round_model s c e = S754_zero s \/
  round_model s c e = S754_infinity s \/
  exists m e', round_model s c e = S754_finite s m e'.
Proof.
  intros L. rewrite round_model_finish by exact L. unfold finish.
  destruct (_ =? 0); [now left |].
  destruct (_ =? 2 ^ 53).
  - destruct (_ <=? 971); [right; right; eauto | right; left; reflexivity].
  - destruct (_ <=? 971); [right; right; eauto | right; left; reflexivity].
Qed.

Lemma round_model_valid s c e : located c e -> valid_binary (round_model s c e) = true.
Proof.
  intros L. rewrite round_model_finish by exact L.
  apply finish_valid, located_canon, L.
Qed.

(** A code of at least 4 at the canonical exponent does not round to zero. *)
Lemma round_model_nonzero s c e :
  located c e -> 4 <= ccode c e -> round_model s c e <> S754_zero s.
Proof.
  intros L H. rewrite round_model_finish by exact L. unfold finish.
  pose proof (rne_bounds (ccode c e)) as B.
  assert (1 <= ccode c e / 4) by (apply Z.div_le_lower_bound; lia).
  destruct (Z.eqb_spec (rne (ccode c e)) 0); [lia |].
  destruct (_ =? 2 ^ 53); destruct (_ <=? 971); discriminate.
Qed.

(** *** Valid finite floats *)

Lemma bounded_canonical m e :
  bounded prec emax m e = true ->
  -1074 <= e <= 971 /\ Z.pos m < 2 ^ 53 /\ (2 ^ 52 <= Z.pos m \/ e = -1074)
  /\ fexp prec emax (Zdigits2 (Z.pos m) + e) = e.
Proof.
  unfold bounded, canonical_mantissa. intros H.
  apply andb_prop in H. destruct H as [H1 H2].
  apply Z.eqb_eq in H1. apply Z.leb_le in H2. change (emax - prec) with 971 in H2.
  change (Z.pos (digits2_pos m)) with (Zdigits2 (Z.pos m)) in H1.
  split; [rewrite fexp_eq in H1; lia |]. split; [| split; [| exact H1]].
  - rewrite fexp_eq in H1.
    destruct (Zdigits2_bounds (Z.pos m) ltac:(lia)) as (D1 & D2 & D3).
    assert (2 ^ Zdigits2 (Z.pos m) <= 2 ^ 53) by (apply Z.pow_le_mono_r; lia). lia.
  - rewrite fexp_eq in H1.
    destruct (Z.eq_dec e (-1074)) as [E | E]; [right; exact E | left].
    destruct (Zdigits2_bounds (Z.pos m) ltac:(lia)) as (D1 & D2 & D3).
    assert (2 ^ 52 <= 2 ^ (Zdigits2 (Z.pos m) - 1)) by (apply Z.pow_le_mono_r; lia). lia.
Qed.

Lemma ival_pos m e : -1074 <= e -> 0 < ival m e.
Proof.
  intros He. unfold ival.
  assert (0 < 2 ^ (e + 1074)) by (apply Z.pow_pos_nonneg; lia). lia.
Qed.

(** The order of valid positive floats is the order of their values. *)
Lemma SFleb_ival m e m' e' :
  bounded prec emax m e = true -> bounded prec emax m' e' = true ->
  SFleb (S754_finite false m e) (S754_finite false m' e') = true ->
  ival m e <= ival m' e'.
Proof.
  intros V V' H.
  destruct (bounded_canonical m e V) as (E & M & C & _).
  destruct (bounded_canonical m' e' V') as (E' & M' & C' & _).
  unfold SFleb in H. cbn [SFcompare] in H. unfold ival.
  assert (P : 0 < 2 ^ (e + 1074)) by (apply Z.pow_pos_nonneg; lia).
  destruct (Z.compare_spec e e') as [Eq | Lt | Gt].
  - subst e'. change (Pos.compare_cont Eq m m') with (Pos.compare m m') in H.
    destruct (Pos.compare_spec m m') as [Eq | Lt | Gt]; try discriminate.
    + subst. lia.
    + apply Z.mul_le_mono_nonneg_r; lia.
  - replace (e' + 1074) with ((e + 1074) + (e' - e)) by lia.
    rewrite (Z.pow_add_r 2 (e + 1074) (e' - e)) by lia.
    assert (Q : 2 ^ 1 <= 2 ^ (e' - e)) by (apply Z.pow_le_mono_r; lia).
    change (2 ^ 1) with 2 in Q.
    assert (M2 : 2 ^ 52 <= Z.pos m') by lia.
    apply Z.le_trans with (2 ^ 53 * 2 ^ (e + 1074)).
    { apply Z.mul_le_mono_nonneg_r; lia. }
    rewrite Z.mul_assoc, (Z.mul_comm (Z.pos m')), <- Z.mul_assoc.
    rewrite (Z.mul_comm (2 ^ 53)).
    apply Z.mul_le_mono_nonneg_l; [lia |].
    change (2 ^ 53) with (2 ^ 52 * 2).
    apply Z.mul_le_mono_nonneg; lia.
  - discriminate.
Qed.

(** *** The operations as roundings *)

Lemma pos_iter_xO m d : Z.pos (Pos.iter xO m d) = Z.pos m * 2 ^ Z.pos d.
Proof.
  rewrite <- (Z.shiftl_mul_pow2 (Z.pos m) (Z.pos d)) by lia.
  unfold Z.shiftl.
  apply (Pos.iter_swap_gen _ _ Z.pos xO (Z.mul 2)). reflexivity.
Qed.

Lemma Zdigits2_mul_pow2 m k : 0 < m -> 0 <= k -> Zdigits2 (m * 2 ^ k) = Zdigits2 m + k.
Proof.
  intros Hm Hk.
  destruct (Zdigits2_bounds m Hm) as (D1 & D2 & D3).
  assert (P : 0 < 2 ^ k) by (apply Z.pow_pos_nonneg; lia).
  apply Zdigits2_unique; [lia |].
  replace (Zdigits2 m + k - 1) with ((Zdigits2 m - 1) + k) by lia.
  rewrite !Z.pow_add_r by lia. split.
  - apply Z.mul_le_mono_nonneg_r; lia.
  - apply Z.mul_lt_mono_pos_r; lia.
Qed.

Lemma located_nonzero s c e :
  located c e -> 4 <= c -> -1074 <= e -> round_model s c e <> S754_zero s.
Proof.
  intros L Hc He. apply round_model_nonzero; [exact L |].
  destruct (located_canonical c e L) as (E1 & [M1 M2] & M3).
  destruct L as [_ L].
  destruct M3 as [M3 | M3].
  - pose proof (Z.div_mod (ccode c e) 4 ltac:(lia)).
    pose proof (Z.mod_pos_bound (ccode c e) 4 ltac:(lia)). lia.
  - unfold ccode. replace (cexp c e - e) with 0 by lia. rewrite sticky_shift_0. exact Hc.
Qed.

(** [binary_round]: the mantissa is first shifted left down to the canonical
    exponent when it has digits to spare. *)
Lemma binary_round_model s m e :
  let ez := Z.min e (fexp prec emax (Zdigits2 (Z.pos m) + e)) in
  let c := 4 * (Z.pos m * 2 ^ (e - ez)) in
  binary_round prec emax s m e = round_model s c ez /\ located c ez /\ 4 <= c.
Proof.
  intros ez c. unfold binary_round, shl_align.
  change (Z.pos (digits2_pos m)) with (Zdigits2 (Z.pos m)).
  set (fe := fexp prec emax (Zdigits2 (Z.pos m) + e)) in *.
  assert (P : 0 < 2 ^ (e - ez)) by (apply Z.pow_pos_nonneg; lia).
  assert (Hc4 : c / 4 = Z.pos m * 2 ^ (e - ez)).
  { unfold c. rewrite Z.mul_comm, Z.div_mul; lia. }
  assert (HL : located c ez).
  { split; [lia |]. unfold cexp. rewrite Hc4.
    rewrite Zdigits2_mul_pow2 by lia.
    replace (Zdigits2 (Z.pos m) + (e - ez) + ez) with (Zdigits2 (Z.pos m) + e) by lia.
    fold fe. lia. }
  split; [| split; [exact HL | lia]].
  destruct (fe - e) as [| d | d] eqn:Ed; cbv iota beta.
  - rewrite binary_round_aux_model by lia. cbn [loc_code]. f_equal; [| lia].
    unfold c. replace (e - ez) with 0 by lia. lia.
  - rewrite binary_round_aux_model by lia. cbn [loc_code]. f_equal; [| lia].
    unfold c. replace (e - ez) with 0 by lia. lia.
  - rewrite binary_round_aux_model by lia. cbn [loc_code]. rewrite pos_iter_xO.
    f_equal; [| lia]. unfold c. replace (e - ez) with (Z.pos d) by lia. lia.
Qed.

Lemma binary_round_rounds_to B m e :
  1074 <= B -> 0 <= e + B ->
  rounds_to (binary_round prec emax false m e) B (Z.pos m * 2 ^ (e + B)) 1.
Proof.
  intros HB He.
  destruct (binary_round_model false m e) as (E & [Lc L] & C4).
  set (ez := Z.min e (fexp prec emax (Zdigits2 (Z.pos m) + e))) in *.
  assert (Hez : 0 <= ez + B) by (unfold ez; rewrite fexp_eq; lia).
  assert (P : 0 < 2 ^ (e + B)) by (apply Z.pow_pos_nonneg; lia).
  assert (Hcode : code_at B (Z.pos m * 2 ^ (e + B)) 1 ez = 4 * (Z.pos m * 2 ^ (e - ez))).
  { rewrite <- code_at_exact with (B := B) (e := ez) by lia.
    f_equal. rewrite <- Z.mul_assoc, <- Z.pow_add_r by lia. do 2 f_equal. lia. }
  exists ez. rewrite Hcode. repeat split; try lia; assumption.
Qed.

Lemma shl_align_fst m e ez :
  ez <= e -> Z.pos (fst (shl_align m e ez)) = Z.pos m * 2 ^ (e - ez).
Proof.
  intros H. unfold shl_align.
  destruct (ez - e) as [| d | d] eqn:Ed; cbn [fst].
  - replace (e - ez) with 0 by lia. lia.
  - lia.
  - rewrite pos_iter_xO. replace (e - ez) with (Z.pos d) by lia. reflexivity.
Qed.

(** The sum of two positive floats is the rounding of the exact sum. *)
Lemma SFadd_rounds_to mx ex my ey :
  -1074 <= ex -> -1074 <= ey ->
  rounds_to (SFadd prec emax (S754_finite false mx ex) (S754_finite false my ey))
            1074 (ival mx ex + ival my ey) 1.
Proof.
  intros Hx Hy. cbn [SFadd cond_Zopp].
  set (ez := Z.min ex ey).
  rewrite !shl_align_fst by lia.
  assert (Px : 0 < 2 ^ (ex - ez)) by (apply Z.pow_pos_nonneg; lia).
  assert (Py : 0 < 2 ^ (ey - ez)) by (apply Z.pow_pos_nonneg; lia).
  set (M := Z.pos mx * 2 ^ (ex - ez) + Z.pos my * 2 ^ (ey - ez)).
  assert (HM : 0 < M) by (unfold M; lia).
  destruct M as [| p | p] eqn:EM; try lia.
  cbn [binary_normalize].
  replace (ival mx ex + ival my ey) with (Z.pos p * 2 ^ (ez + 1074)).
  - apply binary_round_rounds_to; lia.
  - rewrite <- EM. unfold M, ival.
    rewrite Z.mul_add_distr_r, <- !Z.mul_assoc, <- !Z.pow_add_r by lia.
    do 3 f_equal; lia.
Qed.

(** The product of two valid positive floats is the rounding of the exact
    product. *)
Lemma SFmul_rounds_to mx ex my ey :
  bounded prec emax mx ex = true -> bounded prec emax my ey = true ->
  rounds_to (SFmul prec emax (S754_finite false mx ex) (S754_finite false my ey))
            2148 (ival mx ex * ival my ey) 1.
Proof.
  intros Vx Vy.
  destruct (bounded_canonical mx ex Vx) as (Ex & Mx & Cx & Fx).
  destruct (bounded_canonical my ey Vy) as (Ey & My & Cy & Fy).
  cbn [SFmul xorb]. rewrite binary_round_aux_model by lia. cbn [loc_code].
  rewrite Z.add_0_r, Pos2Z.inj_mul.
  assert (Hcode : code_at 2148 (ival mx ex * ival my ey) 1 (ex + ey)
                  = 4 * (Z.pos mx * Z.pos my)).
  { rewrite <- code_at_exact with (B := 2148) (e := ex + ey) by lia.
    f_equal. unfold ival.
    replace (ex + ey + 2148) with ((ex + 1074) + (ey + 1074)) by lia.
    rewrite (Z.pow_add_r 2 (ex + 1074) (ey + 1074)) by lia. ring. }
  exists (ex + ey). rewrite Hcode.
  assert (0 < ival mx ex) by (apply ival_pos; lia).
  assert (0 < ival my ey) by (apply ival_pos; lia).
  repeat split; try lia; try nia.
  (* the exponent is not above the canonical one *)
  unfold cexp. rewrite (Z.mul_comm 4), Z.div_mul by lia. rewrite fexp_eq.
  destruct Cx as [Cx | Cx]; destruct Cy as [Cy | Cy]; try lia.
  - assert (2 ^ 104 <= Z.pos mx * Z.pos my).
    { change (2 ^ 104) with (2 ^ 52 * 2 ^ 52). apply Z.mul_le_mono_nonneg; lia. }
    pose proof (Zdigits2_ge_pow (Z.pos mx * Z.pos my) 104 ltac:(lia) ltac:(lia)). lia.
  - assert (2 ^ 52 <= Z.pos mx * Z.pos my) by nia.
    pose proof (Zdigits2_ge_pow (Z.pos mx * Z.pos my) 52 ltac:(lia) ltac:(lia)). lia.
  - assert (2 ^ 52 <= Z.pos mx * Z.pos my) by nia.
    pose proof (Zdigits2_ge_pow (Z.pos mx * Z.pos my) 52 ltac:(lia) ltac:(lia)). lia.
Qed.

Lemma new_location_code n r :
  0 < n -> 0 <= r < n -> loc_code (new_location n r) = sfloor (2 * r) n.
Proof.
  intros Hn Hr. unfold sfloor, new_location.
  assert (Q : 2 * r / n = 0 \/ 2 * r / n = 1).
  { assert (0 <= 2 * r / n) by (apply Z.div_pos; lia).
    assert (2 * r / n < 2) by (apply Z.div_lt_upper_bound; lia). lia. }
  pose proof (Z.div_mod (2 * r) n ltac:(lia)) as E.
  pose proof (Z.mod_pos_bound (2 * r) n Hn) as B.
  assert (Hodd : Z.even n = false -> 2 * r <> n)
    by (intros Ev' Heq; rewrite <- Heq, Z.even_mul in Ev'; discriminate).
  destruct (Z.even n) eqn:Ev; [unfold new_location_even | unfold new_location_odd];
    try specialize (Hodd eq_refl);
    destruct (Z.eqb_spec r 0) as [R0 | R0];
    destruct Q as [Q | Q]; rewrite Q in *; cbn [loc_code];
    destruct (Z.eqb_spec ((2 * r) mod n) 0); try lia.
  all: try (destruct (Z.compare_spec (2 * r) n) as [C | C | C]; cbn [loc_code]; lia).
  all: destruct (Z.compare_spec (2 * r + 1) n) as [C | C | C]; cbn [loc_code]; lia.
Qed.

Lemma SFdiv_core_binary_code m1 e1 m2 e2 :
  0 < m1 -> 0 < m2 ->
  let e' := Z.min (fexp prec emax (Zdigits2 m1 + e1 - (Zdigits2 m2 + e2))) (e1 - e2) in
  let c := sfloor (2 * (m1 * 2 ^ (e1 - e2 - e'))) m2 in
  exists q l,
    SFdiv_core_binary prec emax m1 e1 m2 e2 = (q, e', l) /\
    0 <= q /\ 4 * q + loc_code l = c /\ e' <= cexp c e'.
Proof.
  intros H1 H2 e' c. unfold SFdiv_core_binary. fold e'.
  set (s := e1 - e2 - e') in *.
  assert (Hs : 0 <= s) by (unfold s, e'; lia).
  assert (P : 0 < 2 ^ s) by (apply Z.pow_pos_nonneg; lia).
  set (m' := match s with Z.pos _ => Z.shiftl m1 s | 0 => m1 | Z.neg _ => 0 end).
  assert (Hm' : m' = m1 * 2 ^ s).
  { unfold m'. destruct s as [| p | p] eqn:Es; try lia.
    apply Z.shiftl_mul_pow2. lia. }
  pose proof (Z.div_eucl_eq m' m2 ltac:(lia)) as E.
  pose proof (Z.mod_pos_bound m' m2 H2) as B. unfold Z.modulo in B.
  destruct (Z.div_eucl m' m2) as [q r] eqn:Edm.
  assert (Hq : q = m' / m2) by (unfold Z.div; rewrite Edm; reflexivity).
  assert (Hq0 : 0 <= q) by (rewrite Hq; apply Z.div_pos; lia).
  exists q, (new_location m2 r).
  assert (Hc : 4 * q + loc_code (new_location m2 r) = c).
  { rewrite new_location_code by lia. unfold c. rewrite <- Hm', E. unfold sfloor.
    replace (2 * (m2 * q + r)) with (2 * r + (2 * q) * m2) by ring.
    rewrite Z.div_add, Z.mod_add by lia. lia. }
  repeat split; try assumption.
  (* the quotient has enough digits *)
  rewrite <- Hc. unfold cexp.
  replace ((4 * q + loc_code (new_location m2 r)) / 4) with q.
  2:{ pose proof (loc_code_bound (new_location m2 r)).
      apply Z.div_unique with (r := loc_code (new_location m2 r)); lia. }
  destruct (Zdigits2_bounds m1 H1) as (A1 & A2 & A3).
  destruct (Zdigits2_bounds m2 H2) as (B1 & B2 & B3).
  set (d1 := Zdigits2 m1) in *. set (d2 := Zdigits2 m2) in *.
  assert (Hd : d1 + s - d2 <= Zdigits2 q).
  { destruct (Z_le_gt_dec (d1 + s - d2) 0) as [L | G].
    - pose proof (Zdigits2_nonneg q). lia.
    - assert (2 ^ (d1 + s - d2 - 1) <= q).
      { rewrite Hq. apply Z.div_le_lower_bound; [lia |].
        apply Z.le_trans with (2 ^ d2 * 2 ^ (d1 + s - d2 - 1)).
        - apply Z.mul_le_mono_nonneg_r; [apply Z.pow_nonneg; lia | lia].
        - rewrite <- Z.pow_add_r by lia.
          replace (d2 + (d1 + s - d2 - 1)) with ((d1 - 1) + s) by lia.
          rewrite Z.pow_add_r by lia. rewrite Hm'.
          apply Z.mul_le_mono_nonneg_r; lia. }
      pose proof (Zdigits2_ge_pow q (d1 + s - d2 - 1) ltac:(lia) ltac:(lia)). lia. }
  assert (He' : e' <= fexp prec emax (d1 + e1 - (d2 + e2))) by (unfold e'; lia).
  rewrite fexp_eq in *. unfold s in Hd. lia.
Qed.

(** The quotient of two valid positive floats is the rounding of the exact
    quotient. *)
Lemma SFdiv_rounds_to mx ex my ey :
  bounded prec emax mx ex = true -> bounded prec emax my ey = true ->
  rounds_to (SFdiv prec emax (S754_finite false mx ex) (S754_finite false my ey))
            2148 (ival mx ex * 2 ^ 2148) (ival my ey).
Proof.
  intros Vx Vy.
  destruct (bounded_canonical mx ex Vx) as (Ex & Mx & Cx & Fx).
  destruct (bounded_canonical my ey Vy) as (Ey & My & Cy & Fy).
  cbn [SFdiv xorb].
  destruct (SFdiv_core_binary_code (Z.pos mx) ex (Z.pos my) ey ltac:(lia) ltac:(lia))
    as (q & l & E & Hq & Hc & L).
  rewrite E. cbv iota beta.
  set (e' := Z.min (fexp prec emax (Zdigits2 (Z.pos mx) + ex - (Zdigits2 (Z.pos my) + ey)))
                   (ex - ey)) in *.
  assert (He' : -2045 <= e' <= ex - ey) by (unfold e'; rewrite fexp_eq; lia).
  rewrite binary_round_aux_model by exact Hq. rewrite Hc in *.
  set (c := sfloor (2 * (Z.pos mx * 2 ^ (ex - ey - e'))) (Z.pos my)) in *.
  assert (Hcode : code_at 2148 (ival mx ex * 2 ^ 2148) (ival my ey) e' = c).
  { unfold code_at, c, ival.
    set (j := ey + 1074 + (e' + 2148)).
    assert (Pj : 0 < 2 ^ j) by (apply Z.pow_pos_nonneg; lia).
    replace (2 * (Z.pos mx * 2 ^ (ex + 1074) * 2 ^ 2148))
      with ((2 * (Z.pos mx * 2 ^ (ex - ey - e'))) * 2 ^ j).
    2:{ rewrite <- !Z.mul_assoc. do 2 f_equal.
        rewrite <- !Z.pow_add_r by lia. f_equal. lia. }
    replace (Z.pos my * 2 ^ (ey + 1074) * 2 ^ (e' + 2148)) with (Z.pos my * 2 ^ j).
    2:{ rewrite <- Z.mul_assoc. f_equal. rewrite <- Z.pow_add_r by lia. reflexivity. }
    apply sfloor_scale; lia. }
  exists e'. rewrite Hcode.
  assert (0 < ival mx ex) by (apply ival_pos; lia).
  assert (0 < ival my ey) by (apply ival_pos; lia).
  repeat split; try lia; try assumption.
Qed.

(** ** Primitive floats through their specification *)

Lemma SFcompare_refl_finite s m e :
  SFcompare (S754_finite s m e) (S754_finite s m e) = Some Eq.
Proof.
  cbn [SFcompare]. rewrite Z.compare_refl.
  change (Pos.compare_cont Eq m m) with (Pos.compare m m).
  rewrite Pos.compare_refl. destruct s; reflexivity.
Qed.

Lemma SFleb_refl x : x <> S754_nan -> SFleb x x = true.
Proof.
  intros H. unfold SFleb. destruct x as [s | s | | s m e]; try congruence.
  - reflexivity.
  - destruct s; reflexivity.
  - rewrite SFcompare_refl_finite. reflexivity.
Qed.

Lemma Prim2SF_zero : Prim2SF 0%float = S754_zero false.
Proof. reflexivity. Qed.

Lemma Prim2SF_one : Prim2SF 1%float = S754_finite false 4503599627370496 (-52).
Proof. reflexivity. Qed.

Lemma Prim2SF_infinity : Prim2SF infinity = S754_infinity false.
Proof. reflexivity. Qed.

(** The tests of floatobject.c on the specification of a float. *)
Lemma is_nan_spec x :
  is_nan x = match Prim2SF x with S754_nan => true | _ => false end.
Proof.
  unfold is_nan. rewrite FloatAxioms.eqb_spec. unfold SFeqb.
  destruct (Prim2SF x) as [s | s | | s m e]; try reflexivity.
  - destruct s; reflexivity.
  - rewrite SFcompare_refl_finite. reflexivity.
Qed.

Lemma is_infinity_spec x :
  is_infinity x = match Prim2SF x with S754_infinity _ => true | _ => false end.
Proof.
  unfold is_infinity. rewrite FloatAxioms.eqb_spec, abs_spec, Prim2SF_infinity. unfold SFeqb.
  destruct (Prim2SF x) as [s | s | | s m e]; reflexivity.
Qed.

Lemma eqb_zero_spec x :
  (x =? 0)%float = match Prim2SF x with S754_zero _ => true | _ => false end.
Proof.
  rewrite FloatAxioms.eqb_spec, Prim2SF_zero. unfold SFeqb.
  destruct (Prim2SF x) as [s | s | | s m e]; try reflexivity; destruct s; reflexivity.
Qed.

Lemma ltb_zero_spec x :
  (0 <? x)%float = match Prim2SF x with
             | S754_infinity false | S754_finite false _ _ => true
             | _ => false
             end.
Proof.
  rewrite FloatAxioms.ltb_spec, Prim2SF_zero. unfold SFltb.
  destruct (Prim2SF x) as [s | s | | s m e]; try reflexivity; destruct s; reflexivity.
Qed.

Lemma ltb_spec_zero x :
  (x <? 0)%float = match Prim2SF x with
             | S754_infinity true | S754_finite true _ _ => true
             | _ => false
             end.
Proof.
  rewrite FloatAxioms.ltb_spec, Prim2SF_zero. unfold SFltb.
  destruct (Prim2SF x) as [s | s | | s m e]; try reflexivity; destruct s; reflexivity.
Qed.

Lemma leb_zero_spec x :
  (0 <=? x)%float = match Prim2SF x with
              | S754_zero _ | S754_infinity false | S754_finite false _ _ => true
              | _ => false
              end.
Proof.
  rewrite FloatAxioms.leb_spec, Prim2SF_zero. unfold SFleb.
  destruct (Prim2SF x) as [s | s | | s m e]; try reflexivity; destruct s; reflexivity.
Qed.

Lemma Prim2SF_finite_valid x s m e :
  Prim2SF x = S754_finite s m e -> bounded prec emax m e = true.
Proof.
  intros H. pose proof (Prim2SF_valid x) as V. rewrite H in V. exact V.
Qed.

(** *** Conversion of an int *)

Lemma binary_round_valid s m e : valid_binary (binary_round prec emax s m e) = true.
Proof.
  destruct (binary_round_model s m e) as (E & L & _). rewrite E.
  apply round_model_valid, L.
Qed.

Lemma binary_normalize_valid z e s :
  valid_binary (binary_normalize prec emax z e s) = true.
Proof. destruct z; [reflexivity | apply binary_round_valid ..]. Qed.

Lemma Prim2SF_Z2float z : Prim2SF (Z2float z) = binary_normalize prec emax z 0 false.
Proof. apply Prim2SF_SF2Prim, binary_normalize_valid. Qed.

(** A rounded nonzero integer keeps its sign and is not zero. *)
Lemma binary_round_shape s m e :
  -1074 <= e ->
  binary_round prec emax s m e = S754_infinity s \/
  exists m' e', binary_round prec emax s m e = S754_finite s m' e'.
Proof.
  intros He. destruct (binary_round_model s m e) as (E & L & C4). rewrite E.
  destruct (round_model_shape s _ _ L) as [Z | [I | F]]; [exfalso | now left | now right].
  revert Z. apply located_nonzero; [exact L | exact C4 |].
  rewrite fexp_eq. lia.
Qed.

Lemma Z2float_pos z :
  0 < z ->
  Prim2SF (Z2float z) = S754_infinity false \/
  exists m e, Prim2SF (Z2float z) = S754_finite false m e.
Proof.
  intros Hz. rewrite Prim2SF_Z2float. destruct z as [| p | p]; try lia.
  apply binary_round_shape. lia.
Qed.

Lemma Z2float_neg z :
  z < 0 ->
  Prim2SF (Z2float z) = S754_infinity true \/
  exists m e, Prim2SF (Z2float z) = S754_finite true m e.
Proof.
  intros Hz. rewrite Prim2SF_Z2float. destruct z as [| p | p]; try lia.
  apply binary_round_shape. lia.
Qed.

Lemma Z2float_0 : Z2float 0 = 0%float.
Proof. reflexivity. Qed.

Lemma Z2float_rounds_to z :
  0 < z -> rounds_to (Prim2SF (Z2float z)) 1074 (z * 2 ^ 1074) 1.
Proof.
  intros Hz. rewrite Prim2SF_Z2float. destruct z as [| p | p]; try lia.
  apply (binary_round_rounds_to 1074 p 0); lia.
Qed.

(** The conversion is monotone. *)
Lemma Z2float_mono z z' : 0 <= z <= z' -> (Z2float z <=? Z2float z')%float = true.
Proof.
  intros H. rewrite FloatAxioms.leb_spec.
  destruct (Z.eq_dec z 0) as [-> | NZ].
  - change (Prim2SF (Z2float 0)) with (S754_zero false).
    destruct (Z.eq_dec z' 0) as [-> | NZ']; [reflexivity |].
    destruct (Z2float_pos z' ltac:(lia)) as [-> | (m & e & ->)]; reflexivity.
  - apply rounds_to_mono with (B := 1074) (n := z * 2 ^ 1074) (d := 1)
                              (n' := z' * 2 ^ 1074) (d' := 1);
      try (apply Z2float_rounds_to; lia).
    nia.
Qed.

(** *** Rounding a float is the identity *)

Lemma round_model_exact s m e k :
  bounded prec emax m e = true -> 0 <= k ->
  round_model s (4 * (Z.pos m * 2 ^ k)) (e - k) = S754_finite s m e.
Proof.
  intros V Hk. destruct (bounded_canonical m e V) as (E & M & C & F).
  assert (P : 0 < 2 ^ k) by (apply Z.pow_pos_nonneg; lia).
  set (c := 4 * (Z.pos m * 2 ^ k)).
  assert (Hc4 : c / 4 = Z.pos m * 2 ^ k) by (unfold c; rewrite Z.mul_comm, Z.div_mul; lia).
  assert (Hce : cexp c (e - k) = e).
  { unfold cexp. rewrite Hc4, Zdigits2_mul_pow2 by lia.
    replace (Zdigits2 (Z.pos m) + k + (e - k)) with (Zdigits2 (Z.pos m) + e) by lia.
    exact F. }
  assert (L : located c (e - k)) by (split; [unfold c; lia | lia]).
  rewrite round_model_finish by exact L. rewrite Hce.
  assert (Hcc : ccode c (e - k) = 4 * Z.pos m).
  { unfold ccode. rewrite Hce. replace (e - (e - k)) with k by lia.
    unfold sticky_shift, c.
    replace (4 * (Z.pos m * 2 ^ k)) with (2 * Z.pos m * 2 ^ (k + 1))
      by (rewrite Z.pow_add_r by lia; ring).
    rewrite sfloor_exact by (apply Z.pow_pos_nonneg; lia). ring. }
  rewrite Hcc.
  assert (Hr : rne (4 * Z.pos m) = Z.pos m).
  { unfold rne. rewrite (Z.mul_comm 4), Z.div_mul, Z.mod_mul by lia. reflexivity. }
  rewrite Hr. unfold finish.
  destruct (Z.eqb_spec (Z.pos m) 0); [lia |].
  destruct (Z.eqb_spec (Z.pos m) (2 ^ 53)); [lia |].
  destruct (Z.leb_spec e 971); [reflexivity | lia].
Qed.

Lemma valid_rounds_to m e :
  bounded prec emax m e = true -> rounds_to (S754_finite false m e) 1074 (ival m e) 1.
Proof.
  intros V. destruct (bounded_canonical m e V) as (E & M & C & F).
  exists e. unfold ival. rewrite code_at_exact by lia.
  assert (0 < 2 ^ (e + 1074)) by (apply Z.pow_pos_nonneg; lia).
  repeat split; try lia.
  - unfold cexp. rewrite (Z.mul_comm 4), Z.div_mul by lia. lia.
  - pose proof (round_model_exact false m e 0 V ltac:(lia)) as R.
    rewrite Z.pow_0_r, Z.mul_1_r, Z.sub_0_r in R. symmetry. exact R.
Qed.

(** *** Division by one *)

Lemma SFdiv_one x :
  valid_binary x = true -> SFdiv prec emax x (Prim2SF 1%float) = x.
Proof.
  intros V. rewrite Prim2SF_one.
  destruct x as [s | s | | s m e]; cbn [SFdiv]; try (destruct s; reflexivity); try reflexivity.
  cbn [valid_binary] in V. destruct (bounded_canonical m e V) as (E & M & C & F).
  destruct (SFdiv_core_binary_code (Z.pos m) e 4503599627370496 (-52) ltac:(lia) ltac:(lia))
    as (q & l & Eq & Hq & Hc & L).
  rewrite Eq. cbv iota beta. rewrite binary_round_aux_model by exact Hq. rewrite Hc.
  change (Zdigits2 4503599627370496) with 53.
  set (e' := Z.min (fexp prec emax (Zdigits2 (Z.pos m) + e - (53 + -52))) (e - -52)) in *.
  assert (He' : e' <= e).
  { unfold e'. rewrite fexp_eq in *. lia. }
  assert (He'' : -1075 <= e') by (unfold e'; rewrite fexp_eq; lia).
  replace (sfloor (2 * (Z.pos m * 2 ^ (e - -52 - e'))) 4503599627370496)
    with (4 * (Z.pos m * 2 ^ (e - e'))).
  - replace e' with (e - (e - e')) at 2 by lia.
    rewrite round_model_exact by (assumption || lia).
    destruct s; reflexivity.
  - replace (e - -52 - e') with ((e - e') + 52) by lia.
    rewrite Z.pow_add_r by lia.
    replace (2 * (Z.pos m * (2 ^ (e - e') * 2 ^ 52)))
      with ((2 * (Z.pos m * 2 ^ (e - e'))) * 4503599627370496)
      by (change (2 ^ 52) with 4503599627370496; ring).
    rewrite sfloor_exact by lia. ring.
Qed.

Lemma div_one x : (x / 1)%float = x.
Proof.
  apply Prim2SF_inj. rewrite div_spec. apply SFdiv_one, Prim2SF_valid.
Qed.

(** *** The operations are monotone *)

Lemma rounds_to_shape r B n d :
  rounds_to r B n d ->
  r = S754_zero false \/ r = S754_infinity false \/
  exists m e, r = S754_finite false m e.
Proof.
  intros (e & Hd & Hn & He & L & ->). apply round_model_shape.
  split; [apply code_at_nonneg; lia | exact L].
Qed.

Lemma rounds_to_nonneg r B n d :
  rounds_to r B n d -> SFleb (S754_zero false) r = true.
Proof.
  intros H. destruct (rounds_to_shape r B n d H) as [-> | [-> | (m & e & ->)]]; reflexivity.
Qed.

Lemma rounds_to_le_infinity r B n d :
  rounds_to r B n d -> SFleb r (S754_infinity false) = true.
Proof.
  intros H. destruct (rounds_to_shape r B n d H) as [-> | [-> | (m & e & ->)]]; reflexivity.
Qed.

Lemma add_mono x x' y :
  (0 <=? x)%float = true -> (x <=? x')%float = true -> (0 <=? y)%float = true ->
  (x + y <=? x' + y)%float = true.
Proof.
  rewrite !leb_zero_spec, !FloatAxioms.leb_spec, !add_spec. unfold SF64add.
  pose proof (Prim2SF_valid x) as Vx. pose proof (Prim2SF_valid x') as Vx'.
  pose proof (Prim2SF_valid y) as Vy.
  destruct (Prim2SF x) as [sx | sx | | sx mx ex]; try discriminate;
    try (destruct sx; try discriminate);
  destruct (Prim2SF x') as [sx' | sx' | | sx' mx' ex']; try discriminate;
    try (destruct sx'; try discriminate);
  destruct (Prim2SF y) as [sy | sy | | sy my ey]; try discriminate;
    try (destruct sy; try discriminate);
  intros _ H _; try reflexivity; try discriminate; try exact H;
  cbn [valid_binary] in *;
  repeat match goal with
         | V : bounded prec emax ?m ?e = true |- _ =>
             pose proof (bounded_canonical m e V); pose proof (valid_rounds_to m e V);
             change (bounded prec emax m e = true)
               with (id (bounded prec emax m e = true)) in V
         end; unfold id in *.
  all: try (change (SFadd prec emax (S754_zero ?s) (S754_finite false my ey))
              with (S754_finite false my ey)).
  all: try (apply SFleb_refl; discriminate).
  all: try (eapply rounds_to_le_infinity, SFadd_rounds_to; lia).
  - (* 0 + y <= x' + y *)
    eapply rounds_to_mono; [eassumption | apply SFadd_rounds_to; lia |].
    pose proof (ival_pos mx' ex' ltac:(lia)). lia.
  - eapply rounds_to_mono; [eassumption | apply SFadd_rounds_to; lia |].
    pose proof (ival_pos mx' ex' ltac:(lia)). lia.
  - (* x + y <= x' + y *)
    eapply rounds_to_mono; [apply SFadd_rounds_to; lia | apply SFadd_rounds_to; lia |].
    assert (ival mx ex <= ival mx' ex'); [| lia].
    apply SFleb_ival; assumption.
Qed.

Tactic Notation "float_cases" constr(x) ident(m) ident(e) :=
  let s := fresh "s" in
  destruct (Prim2SF x) as [s | s | | s m e]; try discriminate;
  try (destruct s; try discriminate).

Ltac use_valid :=
  cbn [valid_binary] in *;
  repeat match goal with
         | V : bounded prec emax ?m ?e = true |- _ =>
             pose proof (bounded_canonical m e V); pose proof (valid_rounds_to m e V);
             change (bounded prec emax m e = true)
               with (id (bounded prec emax m e = true)) in V
         end; unfold id in *.

Lemma mul_mono a x x' :
  (0 <? a)%float = true -> (0 <? x)%float = true -> (x <=? x')%float = true ->
  (a * x <=? a * x')%float = true.
Proof.
  rewrite !ltb_zero_spec, !FloatAxioms.leb_spec, !mul_spec. unfold SF64mul.
  pose proof (Prim2SF_valid a) as Va. pose proof (Prim2SF_valid x) as Vx.
  pose proof (Prim2SF_valid x') as Vx'.
  float_cases a ma ea; float_cases x mx ex; float_cases x' mx' ex'; intros _ _ H;
    try reflexivity; try discriminate; use_valid.
  - eapply rounds_to_le_infinity, SFmul_rounds_to; assumption.
  - apply (rounds_to_mono _ 2148 (ival ma ea * ival mx ex) 1 _ (ival ma ea * ival mx' ex') 1);
      try (apply SFmul_rounds_to; assumption).
    rewrite !Z.mul_1_r.
    apply Z.mul_le_mono_nonneg_l; [pose proof (ival_pos ma ea); lia |].
    apply SFleb_ival; assumption.
Qed.

Lemma div_anti a d d' :
  (0 <? a)%float = true -> is_infinity a = false ->
  (0 <? d)%float = true -> (d <=? d')%float = true ->
  (a / d' <=? a / d)%float = true.
Proof.
  rewrite !ltb_zero_spec, is_infinity_spec, !FloatAxioms.leb_spec, !div_spec.
  unfold SF64div.
  pose proof (Prim2SF_valid a) as Va. pose proof (Prim2SF_valid d) as Vd.
  pose proof (Prim2SF_valid d') as Vd'.
  float_cases a ma ea; float_cases d md ed; float_cases d' md' ed'; intros _ _ _ H;
    try reflexivity; try discriminate; use_valid.
  - eapply rounds_to_nonneg, SFdiv_rounds_to; assumption.
  - apply (rounds_to_mono _ 2148 (ival ma ea * 2 ^ 2148) (ival md' ed')
                          _ (ival ma ea * 2 ^ 2148) (ival md ed));
      try (apply SFdiv_rounds_to; assumption).
    apply Z.mul_le_mono_nonneg_l; [pose proof (ival_pos ma ea); lia |].
    apply SFleb_ival; assumption.
Qed.

Lemma add_pos x y :
  (0 <=? x)%float = true -> (0 <? y)%float = true -> (0 <? x + y)%float = true.
Proof.
  rewrite leb_zero_spec, !ltb_zero_spec, add_spec. unfold SF64add.
  pose proof (Prim2SF_valid x) as Vx. pose proof (Prim2SF_valid y) as Vy.
  float_cases x mx ex; float_cases y my ey; intros _ _; try reflexivity; use_valid.
  (* the sum of two positive floats *)
  pose proof (ival_pos mx ex ltac:(lia)). pose proof (ival_pos my ey ltac:(lia)).
  assert (R := SFadd_rounds_to mx ex my ey ltac:(lia) ltac:(lia)).
  assert (L : SFleb (S754_finite false mx ex)
                    (SFadd prec emax (S754_finite false mx ex) (S754_finite false my ey)) = true).
  { apply (rounds_to_mono _ 1074 (ival mx ex) 1 _ (ival mx ex + ival my ey) 1);
      [assumption | exact R | lia]. }
  destruct (rounds_to_shape _ _ _ _ R) as [E | [E | (m' & e' & E)]];
    rewrite E in *; [discriminate L | reflexivity | reflexivity].
Qed.

Lemma mul_nonneg a x :
  (0 <? a)%float = true -> (0 <? x)%float = true -> (0 <=? a * x)%float = true.
Proof.
  rewrite !ltb_zero_spec, leb_zero_spec, mul_spec. unfold SF64mul.
  pose proof (Prim2SF_valid a) as Va. pose proof (Prim2SF_valid x) as Vx.
  float_cases a ma ea; float_cases x mx ex; intros _ _; try reflexivity; use_valid.
  destruct (rounds_to_shape _ _ _ _ (SFmul_rounds_to ma ea mx ex Va Vx))
    as [E | [E | (m' & e' & E)]]; rewrite E; reflexivity.
Qed.

Lemma div_nonneg a d :
  (0 <? a)%float = true -> is_infinity a = false -> (0 <? d)%float = true ->
  (0 <=? a / d)%float = true.
Proof.
  rewrite !ltb_zero_spec, is_infinity_spec, leb_zero_spec, div_spec. unfold SF64div.
  pose proof (Prim2SF_valid a) as Va. pose proof (Prim2SF_valid d) as Vd.
  float_cases a ma ea; float_cases d md ed; intros _ _ _; try reflexivity; use_valid.
  destruct (rounds_to_shape _ _ _ _ (SFdiv_rounds_to ma ea md ed Va Vd))
    as [E | [E | (m' & e' & E)]]; rewrite E; reflexivity.
Qed.

(** A non-negative float that is not zero is positive. *)
Lemma nonneg_nonzero_pos x :
  (0 <=? x)%float = true -> (x =? 0)%float = false -> (0 <? x)%float = true.
Proof.
  rewrite leb_zero_spec, eqb_zero_spec, ltb_zero_spec.
  float_cases x m e; intros; try reflexivity; discriminate.
Qed.

Lemma pos_nonneg x : (0 <? x)%float = true -> (0 <=? x)%float = true.
Proof.
  rewrite leb_zero_spec, ltb_zero_spec. float_cases x m e; intros; try reflexivity; discriminate.
Qed.

Lemma Z2float_pos_ltb z : 0 < z -> (0 <? Z2float z)%float = true.
Proof.
  intros H. rewrite ltb_zero_spec.
  destruct (Z2float_pos z H) as [-> | (m & e & ->)]; reflexivity.
Qed.

Lemma Z2float_neg_ltb z : z < 0 -> (Z2float z <? 0)%float = true.
Proof.
  intros H. rewrite ltb_spec_zero.
  destruct (Z2float_neg z H) as [-> | (m & e & ->)]; reflexivity.
Qed.

Lemma Z2float_nonneg z : 0 <= z -> (0 <=? Z2float z)%float = true.
Proof.
  intros H. destruct (Z.eq_dec z 0) as [-> | N]; [reflexivity |].
  apply pos_nonneg, Z2float_pos_ltb. lia.
Qed.

Lemma Z2float_eqb_zero z : (Z2float z =? 0)%float = (z =? 0)%Z.
Proof.
  rewrite eqb_zero_spec.
  destruct (Z.eqb_spec z 0) as [-> | N]; [reflexivity |].
  destruct (Z_lt_le_dec z 0) as [L | G].
  - destruct (Z2float_neg z L) as [-> | (m & e & ->)]; reflexivity.
  - destruct (Z2float_pos z ltac:(lia)) as [-> | (m & e & ->)]; reflexivity.
Qed.

(** *** Floats from one up *)

Lemma Prim2SF_two : Prim2SF 2%float = S754_finite false 4503599627370496 (-51).
Proof. reflexivity. Qed.

Lemma two_le x :
  (2 <=? x)%float = true -> (x =? 1)%float = false /\ (1 <? x)%float = true.
Proof.
  rewrite FloatAxioms.leb_spec, FloatAxioms.eqb_spec, FloatAxioms.ltb_spec,
    Prim2SF_two, Prim2SF_one.
  unfold SFleb, SFeqb, SFltb.
  float_cases x m e; cbn [SFcompare]; auto.
  destruct (Z.compare_spec (-51) e); destruct (Z.compare_spec e (-52));
    destruct (Z.compare_spec (-52) e); try lia; intros H; try discriminate H; auto.
Qed.




Lemma Z2float_2 : Z2float 2 = 2%float.
Proof. reflexivity. Qed.


Lemma Z2float_ge_two z :
  2 <= z -> (Z2float z =? 1)%float = false /\ (1 <? Z2float z)%float = true.
Proof. intros H. apply two_le. rewrite <- Z2float_2. apply Z2float_mono. lia. Qed.


Lemma leb_refl x : is_nan x = false -> (x <=? x)%float = true.
Proof.
  rewrite is_nan_spec, FloatAxioms.leb_spec. intros H. apply SFleb_refl.
  destruct (Prim2SF x); congruence.
Qed.

Lemma pos_not_nan x : (0 <? x)%float = true -> is_nan x = false.
Proof. rewrite ltb_zero_spec, is_nan_spec. float_cases x m e; auto. Qed.

Lemma pos_tests x :
  (0 <? x)%float = true ->
  (x =? 0)%float = false /\ (x <? 0)%float = false /\ is_nan x = false.
Proof.
  rewrite ltb_zero_spec, eqb_zero_spec, ltb_spec_zero, is_nan_spec.
  float_cases x m e; auto.
Qed.

(** *** The range of floats *)

Lemma Prim2SF_float_max :
  Prim2SF float_max = S754_finite false 9007199254740991 971.
Proof. reflexivity. Qed.

Lemma SFleb_finite m e m' e' :
  (e < e' \/ e = e' /\ Z.pos m <= Z.pos m')%Z ->
  SFleb (S754_finite false m e) (S754_finite false m' e') = true.
Proof.
  intros H. unfold SFleb. cbn [SFcompare].
  destruct (Z.compare_spec e e'); try lia; try reflexivity.
  change (Pos.compare_cont Eq m m') with (Pos.compare m m').
  destruct (Pos.compare_spec m m'); try reflexivity. lia.
Qed.

(** A float that is not an infinity is at most [float_max]. *)
Lemma le_float_max x :
  (0 <? x)%float = true -> is_infinity x = false -> (x <=? float_max)%float = true.
Proof.
  rewrite ltb_zero_spec, is_infinity_spec, FloatAxioms.leb_spec, Prim2SF_float_max.
  pose proof (Prim2SF_valid x) as V.
  float_cases x m e. intros _ _. cbn [valid_binary] in V.
  destruct (bounded_canonical m e V) as (E & M & _).
  apply SFleb_finite. change (2 ^ 53)%Z with 9007199254740992%Z in M. lia.
Qed.

(** What is at most a finite float is not [+inf]. *)
Lemma le_finite x c :
  (0 <=? x)%float = true -> (x <=? c)%float = true -> is_infinity c = false ->
  is_infinity x = false.
Proof.
  rewrite leb_zero_spec, FloatAxioms.leb_spec, !is_infinity_spec. unfold SFleb.
  float_cases x m e; float_cases c mc ec; cbn [SFcompare]; intros; try reflexivity;
    discriminate.
Qed.

Lemma pos_infinity x :
  (0 <? x)%float = true -> is_infinity x = true -> x = infinity.
Proof.
  rewrite ltb_zero_spec, is_infinity_spec. intros P I. apply Prim2SF_inj.
  rewrite Prim2SF_infinity. float_cases x m e. reflexivity.
Qed.

(** A finite float times zero is a zero. *)
Lemma mul_zero_r x :
  is_nan x = false -> is_infinity x = false -> (x * 0 =? 0)%float = true.
Proof.
  rewrite is_nan_spec, is_infinity_spec, eqb_zero_spec, mul_spec, Prim2SF_zero.
  unfold SF64mul.
  destruct (Prim2SF x) as [s | s | | s m e]; intros; try discriminate; reflexivity.
Qed.

(** *** Ints too large to convert *)

Lemma Z2float_int_too_large : Z2float int_too_large = infinity.
Proof. vm_compute. reflexivity. Qed.

Lemma Z2float_largest : Z2float (int_too_large - 1) = float_max.
Proof. vm_compute. reflexivity. Qed.

Lemma infinity_le x : (infinity <=? x)%float = true -> is_infinity x = true.
Proof.
  rewrite FloatAxioms.leb_spec, Prim2SF_infinity, is_infinity_spec. unfold SFleb.
  float_cases x m e; cbn [SFcompare]; intros; try reflexivity; discriminate.
Qed.

Lemma round_model_opp s c e : SFopp (round_model s c e) = round_model (negb s) c e.
Proof.
  unfold round_model.
  destruct (sticky_shift _ _ / 4)%Z; [reflexivity | | reflexivity].
  destruct (_ <=? _)%Z; reflexivity.
Qed.

Lemma Z2float_opp z : z <> 0%Z -> Z2float (- z) = (- Z2float z)%float.
Proof.
  intros N. apply Prim2SF_inj. rewrite opp_spec, !Prim2SF_Z2float.
  destruct z as [| p | p]; cbn [Z.opp binary_normalize]; [congruence | |].
  - destruct (binary_round_model true p 0) as (E1 & _).
    destruct (binary_round_model false p 0) as (E2 & _).
    rewrite E1, E2, round_model_opp. reflexivity.
  - destruct (binary_round_model true p 0) as (E1 & _).
    destruct (binary_round_model false p 0) as (E2 & _).
    rewrite E1, E2, round_model_opp. reflexivity.
Qed.

Lemma is_infinity_opp x : is_infinity (- x) = is_infinity x.
Proof.
  rewrite !is_infinity_spec, opp_spec. destruct (Prim2SF x); reflexivity.
Qed.

(** [float(z)] raises [OverflowError] exactly from [2 ^ 1024 - 2 ^ 970] on,
    in absolute value. *)
Lemma float_of_int_overflow z :
  float_of_int z = Err OverflowError <-> (int_too_large <= Z.abs z)%Z.
Proof.
  assert (P : forall n, (0 <= n)%Z ->
              is_infinity (Z2float n) = true <-> (int_too_large <= n)%Z).
  { intros n Hn. split.
    - intros I. destruct (Z_lt_le_dec n int_too_large) as [L | G]; [exfalso | exact G].
      assert (F : is_infinity (Z2float n) = false); [| congruence].
      apply (le_finite _ float_max); [apply Z2float_nonneg; exact Hn | | reflexivity].
      rewrite <- Z2float_largest. apply Z2float_mono. lia.
    - intros G. apply infinity_le. rewrite <- Z2float_int_too_large.
      apply Z2float_mono. split; [discriminate | exact G]. }
  assert (Q : is_infinity (Z2float z) = true <-> (int_too_large <= Z.abs z)%Z).
  { destruct (Z_lt_le_dec z 0) as [L | G].
    - replace z with (- Z.abs z)%Z at 1 by lia.
      rewrite Z2float_opp, is_infinity_opp by lia. apply P. lia.
    - replace (Z.abs z) with z by lia. apply P. exact G. }
  unfold float_of_int. destruct (is_infinity (Z2float z)) eqn:I.
  - split; [intros _; apply Q; reflexivity | reflexivity].
  - split; [discriminate |]. intros G. apply Q in G. discriminate.
Qed.

Lemma float_of_int_small z :
  (Z.abs z < int_too_large)%Z -> float_of_int z = Ok (Z2float z).
Proof.
  intros H. unfold float_of_int.
  destruct (is_infinity (Z2float z)) eqn:I; [exfalso | reflexivity].
  assert (E : float_of_int z = Err OverflowError) by (unfold float_of_int; now rewrite I).
  apply float_of_int_overflow in E. lia.
Qed.

(** *** An int divided by one *)

(** A positive integer [m] written at an exponent [e <= 0] that is not
    above its canonical one rounds to the same float whatever [e] is. *)
Lemma round_model_int s m e :
  0 < m -> -1074 <= e <= 0 -> e <= fexp prec emax (Zdigits2 m) ->
  round_model s (4 * (m * 2 ^ (- e))) e
  = finish s (rne (code_at 1074 (m * 2 ^ 1074) 1 (fexp prec emax (Zdigits2 m))))
           (fexp prec emax (Zdigits2 m)).
Proof.
  intros Hm He Hf.
  assert (P : 0 < 2 ^ (- e)) by (apply Z.pow_pos_nonneg; lia).
  set (c := 4 * (m * 2 ^ (- e))).
  assert (Hc4 : c / 4 = m * 2 ^ (- e)) by (unfold c; rewrite Z.mul_comm, Z.div_mul; lia).
  assert (Hce : cexp c e = fexp prec emax (Zdigits2 m)).
  { unfold cexp. rewrite Hc4, Zdigits2_mul_pow2 by lia. f_equal. lia. }
  assert (L : located c e) by (split; [unfold c; nia | rewrite Hce; exact Hf]).
  rewrite round_model_finish by exact L. rewrite Hce. f_equal. f_equal.
  unfold ccode. rewrite Hce.
  assert (Ec : c = code_at 1074 (m * 2 ^ 1074) 1 e).
  { replace (m * 2 ^ 1074) with ((m * 2 ^ (- e)) * 2 ^ (e + 1074)).
    - rewrite code_at_exact by lia. reflexivity.
    - rewrite <- Z.mul_assoc, <- (Z.pow_add_r 2 (- e) (e + 1074)) by lia.
      do 2 f_equal. lia. }
  rewrite Ec, code_at_shift by lia. f_equal. lia.
Qed.

(** [long_true_divide] by one is the conversion to a float. *)
Lemma Zdiv2float_one z : Zdiv2float z 1 = Z2float z.
Proof.
  assert (R : forall s p,
             (let '(q, e, l) := SFdiv_core_binary prec emax (Z.pos p) 0 1 0 in
              SF2Prim (binary_round_aux prec emax s q e l))
             = SF2Prim (binary_round prec emax s p 0)).
  { intros s p.
    destruct (SFdiv_core_binary_code (Z.pos p) 0 1 0 ltac:(lia) ltac:(lia))
      as (q & l & Eq & Hq & Hc & L).
    rewrite Eq. cbv iota beta. f_equal.
    rewrite binary_round_aux_model by exact Hq. rewrite Hc.
    destruct (binary_round_model s p 0) as (E & _). rewrite E.
    change (Zdigits2 1) with 1.
    set (e1 := Z.min (fexp prec emax (Zdigits2 (Z.pos p) + 0 - (1 + 0))) (0 - 0)).
    set (e2 := Z.min 0 (fexp prec emax (Zdigits2 (Z.pos p) + 0))).
    assert (D : 0 < Zdigits2 (Z.pos p))
      by (destruct (Zdigits2_bounds (Z.pos p) ltac:(lia)); lia).
    assert (B1 : -1074 <= e1 <= 0 /\ e1 <= fexp prec emax (Zdigits2 (Z.pos p)))
      by (unfold e1; rewrite !fexp_eq; lia).
    assert (B2 : -1074 <= e2 <= 0 /\ e2 <= fexp prec emax (Zdigits2 (Z.pos p)))
      by (unfold e2; rewrite !fexp_eq; lia).
    replace (sfloor (2 * (Z.pos p * 2 ^ (0 - 0 - e1))) 1)
      with (4 * (Z.pos p * 2 ^ (- e1))).
    - replace (0 - e2) with (- e2) by lia.
      rewrite !round_model_int by lia. reflexivity.
    - replace (0 - 0 - e1) with (- e1) by lia.
      rewrite <- (Z.mul_1_r (2 * (Z.pos p * 2 ^ (- e1)))) at 1.
      rewrite sfloor_exact by lia. ring. }
  unfold Zdiv2float, Z2float.
  destruct z as [| p | p]; cbn [Z.abs Z.ltb Z.compare xorb binary_normalize].
  - reflexivity.
  - apply R.
  - apply R.
Qed.
Local Open Scope py_scope.

(** ** Computations *)

Lemma answer_bind {A B} (o : oracle) (c : libm A) (k : A -> libm B) :
  answer o (libm_bind c k) = answer o (k (answer o c)).
Proof.
  induction c as [a | f args k' IH]; simpl; [reflexivity | apply IH].
Qed.

Lemma all_leaves_answer {A} (P : A -> Prop) (o : oracle) (c : libm A) :
  all_leaves P c -> P (answer o c).
Proof.
  induction c as [a | f args k IH]; simpl; intros H; [exact H | apply IH, H].
Qed.

Lemma all_leaves_bind {A B} (P : A -> Prop) (Q : B -> Prop)
      (c : libm A) (k : A -> libm B) :
  all_leaves P c ->
  (forall a, P a -> all_leaves Q (k a)) ->
  all_leaves Q (libm_bind c k).
Proof.
  intros Hc Hk. induction c as [a | f args k' IH]; simpl in *.
  - apply Hk, Hc.
  - intros r. apply IH, Hc.
Qed.

Lemma all_leaves_impl {A} (P Q : A -> Prop) (c : libm A) :
  (forall a, P a -> Q a) -> all_leaves P c -> all_leaves Q c.
Proof.
  intros HPQ. induction c as [a | f args k IH]; simpl; intros H.
  - apply HPQ, H.
  - intros r. apply IH, H.
Qed.

Lemma all_leaves_True {A} (c : libm A) : all_leaves (fun _ => True) c.
Proof. induction c; simpl; auto. Qed.

(** ** Methods that only read [self] *)

(** [m] leaves [self] as it found it, whatever it returns or raises. *)
Definition preserves {A} (m : M A) : Prop :=
  forall self, all_leaves (fun rs => snd rs = self) (m self).

Lemma preserves_ret {A} (a : A) : preserves (ret a).
Proof. intros self. reflexivity. Qed.

Lemma preserves_lift {A} (r : result A) : preserves (lift r).
Proof. intros self. reflexivity. Qed.

Lemma preserves_getattr name : preserves (getattr name).
Proof. intros self. unfold getattr. destruct (lookup name self); reflexivity. Qed.

Lemma preserves_lift_libm {A} (c : libm (result A)) : preserves (lift_libm c).
Proof.
  intros self. unfold lift_libm.
  apply all_leaves_bind with (P := fun _ => True); [apply all_leaves_True |].
  intros r _. reflexivity.
Qed.

Lemma preserves_bind {A B} (m : M A) (k : A -> M B) :
  preserves m -> (forall a, preserves (k a)) -> preserves (bind m k).
Proof.
  intros Hm Hk self. unfold bind.
  eapply all_leaves_bind; [apply Hm |].
  intros [r self'] Hrs. simpl in Hrs. subst self'.
  destruct r as [a | e]; [apply Hk | reflexivity].
Qed.

Create HintDb frame.
#[local] Hint Resolve preserves_ret preserves_lift preserves_getattr
  preserves_lift_libm : frame.

Ltac frame := repeat (apply preserves_bind; [| intros ?]); auto with frame.

Lemma ConstantLR_get_preserves t : preserves (ConstantLR.get t).
Proof. unfold ConstantLR.get. frame. Qed.

Lemma InverseScalingLR_get_preserves t : preserves (InverseScalingLR.get t).
Proof. unfold InverseScalingLR.get. frame. Qed.

Lemma OptimalLR_get_preserves t : preserves (OptimalLR.get t).
Proof. unfold OptimalLR.get. frame. Qed.

Lemma get_preserves c t : preserves (get c t).
Proof.
  destruct c; simpl;
    [apply ConstantLR_get_preserves | apply InverseScalingLR_get_preserves
     | apply OptimalLR_get_preserves].
Qed.

(** ** The three formulas *)

Lemma InverseScalingLR_get_new (o : oracle) (learning_rate power : num) (t : Z) :
  run o (InverseScalingLR.get t) (InverseScalingLR.new learning_rate (Some power))
  = (answer o (spec_InverseScaling_rateAt learning_rate power t),
     InverseScalingLR.new learning_rate (Some power)).
Proof.
  unfold run, InverseScalingLR.get, spec_InverseScaling_rateAt, bind,
    lift_libm, lift, getattr.
  cbn [InverseScalingLR.new InverseScalingLR.__init__ instantiate bind setattr
       libm_bind lookup String.eqb Ascii.eqb Bool.eqb py_add].
  rewrite !answer_bind. cbn [answer].
  destruct (answer o (py_pow (Int (t + 1)) power)); reflexivity.
Qed.

(** C1: for every non-negative integer step and all parameters [baseRate]
    and [power], [InverseScalingLR(baseRate, power).get(step)] is
    [baseRate / (step + 1) ** power], and the instance is as it was. *)
Theorem InverseScalingLR_get_formula (o : oracle) (baseRate power : num) (step : Z) :
  (0 <= step)%Z ->
  run o (InverseScalingLR.get step) (InverseScalingLR.new baseRate (Some power))
  = (answer o (spec_InverseScaling_rateAt baseRate power step),
     InverseScalingLR.new baseRate (Some power)).
Proof. intros _. apply InverseScalingLR_get_new. Qed.

(** [InverseScalingLR(1.0, 0.5).get(3)] is [0.5] once [pow(4.0, 0.5)] is
    answered [2.0]. *)
Lemma InverseScalingLR_get_formula_witness :
  (0 <= 3)%Z /\
  run (libm_const 2) (InverseScalingLR.get 3)
      (InverseScalingLR.new (Float 1) (Some (Float 0.5)))
  = (Ok (Num (Float 0.5)), InverseScalingLR.new (Float 1) (Some (Float 0.5))).
Proof.
  split; [lia |].
  rewrite (InverseScalingLR_get_formula (libm_const 2) (Float 1) (Float 0.5) 3);
    [reflexivity | lia].
Defined.

Lemma OptimalLR_get_new (t0 alpha : num) (t : Z) :
  OptimalLR.get t (OptimalLR.new (Some t0) (Some alpha))
  = Done (spec_Optimal_rateAt t0 alpha t, OptimalLR.new (Some t0) (Some alpha)).
Proof.
  unfold OptimalLR.get, spec_Optimal_rateAt, spec_Optimal_denominator, bind,
    lift, getattr.
  cbn -[py_add py_mul py_truediv].
  destruct (py_add (Int t) t0) as [sum | e]; cbn -[py_mul py_truediv]; [| reflexivity].
  destruct (py_mul alpha sum) as [d | e]; reflexivity.
Qed.

(** C2: for every non-negative integer step and all parameters [t0] and
    [alpha], [OptimalLR(t0, alpha).get(step)] is
    [1 / (alpha * (step + t0))]; no call to the math library is made. *)
Theorem OptimalLR_get_formula (t0 alpha : num) (step : Z) :
  (0 <= step)%Z ->
  OptimalLR.get step (OptimalLR.new (Some t0) (Some alpha))
  = Done (spec_Optimal_rateAt t0 alpha step, OptimalLR.new (Some t0) (Some alpha)).
Proof. intros _. apply OptimalLR_get_new. Qed.

(** [OptimalLR(t0=1000, alpha=1e-4).get(0)] is [10.0]. *)
Lemma OptimalLR_get_formula_witness :
  (0 <= 0)%Z /\
  OptimalLR.get 0 (OptimalLR.new (Some (Int 1000)) (Some OptimalLR.default_alpha))
  = Done (Ok (Num (Float 10)),
          OptimalLR.new (Some (Int 1000)) (Some OptimalLR.default_alpha)).
Proof.
  split; [lia |].
  rewrite (OptimalLR_get_formula (Int 1000) OptimalLR.default_alpha 0);
    [reflexivity | lia].
Defined.

(** C3: for every integer step and every rate [r], [ConstantLR(r).get(step)]
    returns [r]. *)
Theorem ConstantLR_get_rate (r : num) (step : Z) :
  ConstantLR.get step (ConstantLR.new r) = Done (Ok (Num r), ConstantLR.new r).
Proof. reflexivity. Qed.

(** ** No state *)

(** C9: for every variant, every instance and every integer step, [get]
    leaves every attribute of the instance as it was, and a second call with
    the same step returns what the first returned. *)
Theorem get_pure (c : LRScheduler) (o : oracle) (self : obj) (step : Z) :
  snd (run o (get c step) self) = self /\
  run o (get c step) (snd (run o (get c step) self)) = run o (get c step) self.
Proof.
  assert (H : snd (run o (get c step) self) = self).
  { unfold run. apply all_leaves_answer with (P := fun rs => snd rs = self).
    apply get_preserves. }
  split; [exact H | now rewrite H].
Qed.

(** ** Division by zero *)

Lemma float_of_int_0 : float_of_int 0 = Ok 0%float.
Proof. reflexivity. Qed.

Lemma float_of_int_1 : float_of_int 1 = Ok 1%float.
Proof. reflexivity. Qed.

(** A conversion fails with [OverflowError] only, and a converted int is
    zero only when the int is. *)
Lemma float_of_int_cases z :
  float_of_int z = Err OverflowError \/
  exists y, float_of_int z = Ok y /\ is_infinity y = false /\ (y =? 0)%float = (z =? 0)%Z.
Proof.
  unfold float_of_int. destruct (is_infinity (Z2float z)) eqn:I; [now left | right].
  exists (Z2float z). repeat split; [exact I | apply Z2float_eqb_zero].
Qed.

Lemma float_of_int_Ok z y : float_of_int z = Ok y -> y = Z2float z /\ is_infinity y = false.
Proof.
  unfold float_of_int. destruct (is_infinity (Z2float z)) eqn:I; [discriminate |].
  intros [= <-]. auto.
Qed.

Lemma to_double_cases n :
  to_double n = Err OverflowError \/
  exists y, to_double n = Ok y /\ (y =? 0)%float = num_is_zero n.
Proof.
  destruct n as [z | x]; cbn [to_double num_is_zero].
  - destruct (float_of_int_cases z) as [E | (y & E & _ & Z)]; [now left | right; eauto].
  - right. eauto.
Qed.

Lemma py_add_error a b e : py_add a b = Err e -> e = OverflowError.
Proof.
  unfold py_add, result_bind.
  destruct a as [x | x], b as [y | y]; cbn [to_double]; try discriminate;
    repeat match goal with
           | |- context [float_of_int ?z] =>
               destruct (float_of_int_cases z) as [-> | (? & -> & _)]
           end; congruence.
Qed.

Lemma py_mul_error a b e : py_mul a b = Err e -> e = OverflowError.
Proof.
  unfold py_mul, result_bind.
  destruct a as [x | x], b as [y | y]; cbn [to_double]; try discriminate;
    repeat match goal with
           | |- context [float_of_int ?z] =>
               destruct (float_of_int_cases z) as [-> | (? & -> & _)]
           end; congruence.
Qed.

(** The absolute values [_Py_c_quot] compares are both zero exactly when
    both parts of the divisor are. *)
Lemma c_quot_zero_test re im :
  ((if im <? 0 then - im else im) <=? (if re <? 0 then - re else re))%float
  && ((if re <? 0 then - re else re) =? 0)%float
  = (re =? 0)%float && (im =? 0)%float.
Proof.
  rewrite !ltb_spec_zero, !(eqb_zero_spec re), (eqb_zero_spec im).
  pose proof (opp_spec re) as Ore. pose proof (opp_spec im) as Oim.
  destruct (Prim2SF re) as [sr | sr | | sr mr er] eqn:Er;
    try destruct sr;
    destruct (Prim2SF im) as [si | si | | si mi ei] eqn:Ei;
    try destruct si;
    rewrite FloatAxioms.leb_spec, eqb_zero_spec, ?Ore, ?Oim, ?Er, ?Ei;
    cbn [SFopp negb]; try reflexivity;
    unfold SFleb; cbn [SFcompare]; rewrite ?andb_false_r; reflexivity.
Qed.

Lemma c_quot_zde a re im :
  c_quot a (re, im) = Err ZeroDivisionError <-> (re =? 0)%float && (im =? 0)%float = true.
Proof.
  rewrite <- c_quot_zero_test. unfold c_quot. destruct a as [a_real a_imag].
  destruct ((if im <? 0 then - im else im) <=? (if re <? 0 then - re else re))%float;
    [destruct ((if re <? 0 then - re else re) =? 0)%float |
     destruct ((if re <? 0 then - re else re) <=? (if im <? 0 then - im else im))%float];
    cbn [andb]; split; congruence.
Qed.

(** [x / d] raises [ZeroDivisionError] exactly when [d] is zero. *)
Lemma py_truediv_float_zde x d :
  py_truediv (Float x) d = Err ZeroDivisionError <-> value_is_zero d = true.
Proof.
  destruct d as [[z | y] | re im]; cbn [py_truediv value_is_zero num_is_zero].
  - unfold float_div, result_bind. cbn [to_double].
    destruct (float_of_int_cases z) as [E | (y & E & _ & Z)]; rewrite E.
    + destruct (Z.eqb_spec z 0) as [-> | N]; [discriminate E | split; congruence].
    + rewrite Z. destruct (z =? 0)%Z; split; congruence.
  - unfold float_div, result_bind. cbn [to_double].
    destruct (y =? 0)%float; split; congruence.
  - unfold complex_div, result_bind. cbn [to_double].
    rewrite <- (c_quot_zde (x, 0%float) re im).
    destruct (c_quot (x, 0%float) (re, im)); split; congruence.
Qed.

(** C6: [OptimalLR(t0, alpha).get(step)] raises [ZeroDivisionError] exactly
    when [alpha * (step + t0)] evaluates to zero; [OptimalLR(t0=0,
    alpha=1e-4).get(0)] does, and what comes back is the exception, not a
    value. *)
Theorem OptimalLR_get_division_by_zero :
  (forall (t0 alpha : num) (step : Z),
      OptimalLR.get step (OptimalLR.new (Some t0) (Some alpha))
      = Done (Err ZeroDivisionError, OptimalLR.new (Some t0) (Some alpha))
      <-> exists d, spec_Optimal_denominator t0 alpha step = Ok d /\ num_is_zero d = true)
  /\ OptimalLR.get 0 (OptimalLR.new (Some (Int 0)) (Some OptimalLR.default_alpha))
     = Done (Err ZeroDivisionError,
             OptimalLR.new (Some (Int 0)) (Some OptimalLR.default_alpha)).
Proof.
  split; [| reflexivity].
  intros t0 alpha step. rewrite OptimalLR_get_new. unfold spec_Optimal_rateAt.
  destruct (spec_Optimal_denominator t0 alpha step) as [d | e] eqn:D; cbn [result_bind].
  - pose proof (py_truediv_float_zde 1 (Num d)) as T. cbn [value_is_zero] in T.
    split.
    + intros H. exists d. split; [reflexivity |]. apply T. congruence.
    + intros (d' & E & Z). assert (d' = d) by congruence. subst d'.
      apply T in Z. rewrite Z. reflexivity.
  - assert (e = OverflowError).
    { unfold spec_Optimal_denominator, result_bind in D.
      destruct (py_add (Int step) t0) eqn:A.
      - eapply py_mul_error; eassumption.
      - apply py_add_error in A. congruence. }
    subst e. split; [discriminate | intros (d' & E & _); discriminate].
Qed.

(** ** Negative steps *)

Ltac get_on_new :=
  unfold InverseScalingLR.get, bind, lift_libm, lift, getattr;
  cbn [InverseScalingLR.new InverseScalingLR.__init__ instantiate bind setattr
       libm_bind lookup String.eqb Ascii.eqb Bool.eqb py_add].

(** A float that differs from its floor is finite and not zero. *)
Lemma non_integer_finite p :
  is_nan p = false -> (p =? c_floor p)%float = false ->
  (p =? 0)%float = false /\ is_infinity p = false.
Proof.
  rewrite is_nan_spec, eqb_zero_spec, is_infinity_spec, FloatAxioms.eqb_spec.
  unfold c_floor.
  destruct (Prim2SF p) as [s | s | | s m e] eqn:E; try discriminate;
    intros _ H; try (split; reflexivity); exfalso;
    rewrite E in H; destruct s; discriminate H.
Qed.

Lemma py_pow_negative_base z p :
  (z <= -1)%Z -> is_nan p = false -> (p =? c_floor p)%float = false ->
  all_leaves complex_or_error (py_pow (Int z) (Float p)).
Proof.
  intros Hz Hn Hp. destruct (non_integer_finite p Hn Hp) as [P0 PI].
  cbn [py_pow]. unfold float_pow. cbn [to_double].
  destruct (float_of_int z) as [iv | e] eqn:E; [| exact I].
  destruct (float_of_int_Ok z iv E) as [-> II].
  pose proof (Z2float_neg_ltb z ltac:(lia)) as Lt.
  assert (Z0 : (Z2float z =? 0)%float = false).
  { rewrite Z2float_eqb_zero. apply Z.eqb_neq. lia. }
  assert (N : is_nan (Z2float z) = false).
  { rewrite is_nan_spec. rewrite ltb_spec_zero in Lt.
    destruct (Prim2SF (Z2float z)); try discriminate; reflexivity. }
  rewrite P0, N, Hn, PI, II, Z0, Lt, Hp. cbn [negb].
  unfold complex_pow. cbn [all_leaves]. intros vabs len at_ c s.
  destruct (is_infinity _ || is_infinity _); exact I.
Qed.

(** [_Py_c_quot] fails by [ZeroDivisionError] only. *)
Lemma c_quot_error a b e : c_quot a b = Err e -> e = ZeroDivisionError.
Proof.
  unfold c_quot. destruct a as [a_real a_imag], b as [b_real b_imag].
  repeat match goal with
         | |- context [if ?c then _ else _] => destruct c
         end; congruence.
Qed.

(** [InverseScalingLR(1.0).get(-(2 ** 1024))], with the default power
    [0.5]: the base [step + 1] is an int too large to convert to a float,
    and [get] raises instead of returning a complex number. *)
Lemma InverseScalingLR_get_complex_raises :
  (- 2 ^ 1024 <= -2)%Z /\
  InverseScalingLR.get (- 2 ^ 1024) (InverseScalingLR.new (Float 1) None)
  = Done (Err OverflowError, InverseScalingLR.new (Float 1) None).
Proof. split; [vm_compute; discriminate | vm_compute; reflexivity]. Qed.

(** C10, as the code has it: at every step [<= -2], [InverseScalingLR]
    with a power that is not an integer (the default [0.5] is one) never
    returns a float.  It raises [OverflowError] when [step + 1] or
    [learning_rate] does not convert to a float or when a part of the
    complex power [(step + 1) ** power] is infinite, [ZeroDivisionError]
    when that power is zero, and in every other case it returns a complex
    number, the quotient of [learning_rate] by the power. *)
Theorem InverseScalingLR_get_complex
        (o : oracle) (learning_rate : num) (power : float) (step : Z) :
  (step <= -2)%Z -> is_nan power = false -> (power =? c_floor power)%float = false ->
  let result := fst (run o (InverseScalingLR.get step)
                         (InverseScalingLR.new learning_rate (Some (Float power)))) in
  let base := Z2float (step + 1) in
  let len := o c_pow [o c_hypot [base; 0%float]; power] in
  let phase := (o c_atan2 [0%float; base] * power)%float in
  let re := (len * o c_cos [phase])%float in
  let im := (len * o c_sin [phase])%float in
  if (int_too_large <=? Z.abs (step + 1))%Z then result = Err OverflowError
  else if is_infinity re || is_infinity im then result = Err OverflowError
  else match to_double learning_rate with
       | Err _ => result = Err OverflowError
       | Ok x =>
           if (re =? 0)%float && (im =? 0)%float then result = Err ZeroDivisionError
           else exists q, c_quot (x, 0%float) (re, im) = Ok q
                          /\ result = Ok (Complex (fst q) (snd q))
       end.
Proof.
  intros Hs Hn Hp. cbv zeta. rewrite InverseScalingLR_get_new. cbn [fst].
  unfold spec_InverseScaling_rateAt. rewrite answer_bind.
  cbn [py_pow]. unfold float_pow. cbn [to_double].
  destruct (Z.leb_spec int_too_large (Z.abs (step + 1))) as [H | H].
  - assert (E : float_of_int (step + 1) = Err OverflowError)
      by (apply float_of_int_overflow; exact H).
    rewrite E. reflexivity.
  - assert (E : float_of_int (step + 1) = Ok (Z2float (step + 1)))
      by (apply float_of_int_small; exact H).
    rewrite E. destruct (float_of_int_Ok _ _ E) as [_ II].
    destruct (non_integer_finite power Hn Hp) as [P0 PI].
    pose proof (Z2float_neg_ltb (step + 1) ltac:(lia)) as Lt.
    assert (Z0 : (Z2float (step + 1) =? 0)%float = false).
    { rewrite Z2float_eqb_zero. apply Z.eqb_neq. lia. }
    assert (N : is_nan (Z2float (step + 1)) = false).
    { rewrite is_nan_spec. rewrite ltb_spec_zero in Lt.
      destruct (Prim2SF (Z2float (step + 1))); try discriminate; reflexivity. }
    rewrite P0, N, Hn, PI, II, Z0, Lt, Hp. cbn [negb].
    unfold complex_pow. cbn [answer].
    destruct (is_infinity _ || is_infinity _); cbn [answer result_bind];
      [reflexivity |].
    cbn [py_truediv]. unfold complex_div.
    destruct (to_double_cases learning_rate) as [L | (x & L & _)]; rewrite L;
      cbn [result_bind]; [reflexivity |].
    match goal with
    | |- context [c_quot (x, 0%float) (?re, ?im)] =>
        pose proof (c_quot_zde (x, 0%float) re im) as Q;
        destruct ((re =? 0)%float && (im =? 0)%float);
        [ assert (Q' : c_quot (x, 0%float) (re, im) = Err ZeroDivisionError)
            by (apply Q; reflexivity);
          rewrite Q'; reflexivity
        | destruct (c_quot (x, 0%float) (re, im)) as [q | e] eqn:Eq;
          [ exists q; split; reflexivity
          | exfalso; rewrite (c_quot_error _ _ _ Eq) in Q;
            destruct Q as [Q _]; discriminate (Q eq_refl) ] ]
    end.
Qed.

(** [InverseScalingLR(1.0).get(-2)], with the default power, under the
    answers a correctly rounding math library gives for [(-1.0) ** 0.5]:
    the complex number Python prints as [(6.123233995736766e-17-1j)]. *)
Lemma InverseScalingLR_get_complex_witness :
  (-2 <= -2)%Z /\ is_nan 0.5 = false /\ (0.5 =? c_floor 0.5)%float = false /\
  fst (run libm_at_minus_one (InverseScalingLR.get (-2))
           (InverseScalingLR.new (Float 1) None))
  = Ok (Complex 0x1.1a62633145c07p-54 (-1)).
Proof.
  assert (H1 : (-2 <= -2)%Z) by lia.
  assert (H2 : is_nan 0.5 = false) by reflexivity.
  assert (H3 : (0.5 =? c_floor 0.5)%float = false) by reflexivity.
  refine (conj H1 (conj H2 (conj H3 _))).
  destruct (InverseScalingLR_get_complex libm_at_minus_one (Float 1) 0.5 (-2) H1 H2 H3)
    as (q & Eq & R).
  injection Eq as <-. exact R.
Defined.

(** [0 ** p] is [0.0] for every positive float [p], the infinite one
    included. *)
Lemma py_pow_zero_base p :
  (0 <? p)%float = true -> py_pow (Int 0) (Float p) = ret_float 0.
Proof.
  intros Hp. cbn [py_pow]. unfold float_pow. cbn [to_double].
  rewrite float_of_int_0.
  assert (P0 : (p =? 0)%float = false /\ is_nan p = false /\ (p <? 0)%float = false).
  { rewrite ltb_zero_spec in Hp. rewrite eqb_zero_spec, is_nan_spec, ltb_spec_zero.
    destruct (Prim2SF p) as [s | s | | s m e]; try discriminate;
      destruct s; try discriminate; auto. }
  destruct P0 as (P0 & PN & PL). rewrite P0, PN, Hp, PL.
  change (is_nan 0) with false. change (is_infinity 0) with false.
  change (abs 0 =? 1)%float with false. change (1 <? abs 0)%float with false.
  change (0 =? 0)%float with true. cbv iota. cbn [Bool.eqb].
  destruct (is_infinity p); [reflexivity |].
  destruct (double_is_odd_integer p); reflexivity.
Qed.

(** [InverseScalingLR(1.0).get(-1)], with the default power [0.5], divides
    by [0 ** 0.5], which is [0.0]. *)
Lemma InverseScalingLR_get_minus_one_raises :
  InverseScalingLR.get (-1) (InverseScalingLR.new (Float 1) None)
  = Done (Err ZeroDivisionError, InverseScalingLR.new (Float 1) None).
Proof. reflexivity. Qed.

(** C7, as the code has it: [ConstantLR.get] never fails, while a division
    by zero is reachable in [OptimalLR.get] ([OptimalLR().get(-1000)]
    raises it) and in [InverseScalingLR.get] too.  With a float
    [learning_rate] it is raised exactly when [(step + 1) ** power] raises
    it or evaluates to zero; it is raised at step [-1] for every positive
    float power. *)
Theorem division_by_zero_reachability :
  (forall (r : num) (step : Z),
      ConstantLR.get step (ConstantLR.new r) = Done (Ok (Num r), ConstantLR.new r))
  /\ (forall (o : oracle) (learning_rate : float) (power : num) (step : Z),
        fst (run o (InverseScalingLR.get step)
                 (InverseScalingLR.new (Float learning_rate) (Some power)))
        = Err ZeroDivisionError
        <-> (answer o (py_pow (Int (step + 1)) power) = Err ZeroDivisionError
             \/ exists d, answer o (py_pow (Int (step + 1)) power) = Ok d
                          /\ value_is_zero d = true))
  /\ (forall (learning_rate power : float),
        (0 <? power)%float = true ->
        InverseScalingLR.get (-1)
          (InverseScalingLR.new (Float learning_rate) (Some (Float power)))
        = Done (Err ZeroDivisionError,
                InverseScalingLR.new (Float learning_rate) (Some (Float power))))
  /\ OptimalLR.get (-1000) (OptimalLR.new None None)
     = Done (Err ZeroDivisionError, OptimalLR.new None None).
Proof.
  split; [reflexivity | split; [| split; [| reflexivity]]].
  - intros o lr power step. rewrite InverseScalingLR_get_new. cbn [fst].
    unfold spec_InverseScaling_rateAt. rewrite answer_bind. cbn [answer].
    destruct (answer o (py_pow (Int (step + 1)) power)) as [d | e]; cbn [result_bind].
    + rewrite py_truediv_float_zde. split.
      * intros H. right. exists d. auto.
      * intros [H | (d' & [= <-] & H)]; [discriminate | exact H].
    + split.
      * intros H. left. exact H.
      * intros [H | (d' & H & _)]; [exact H | discriminate].
  - intros lr power Hp. get_on_new. change (-1 + 1)%Z with 0%Z.
    rewrite (py_pow_zero_base power Hp). cbn [ret_float libm_bind].
    cbn [py_truediv]. unfold float_div, result_bind. cbn [to_double].
    change (0 =? 0)%float with true. reflexivity.
Qed.

(** ** A zero power *)

(** [InverseScalingLR(0.5, 0.0).get(2 ** 1024)] raises where
    [ConstantLR(0.5)] returns [0.5], and [InverseScalingLR(2 ** 53 + 1,
    0).get(0)] is the float [2 ** 53], not the rate [2 ** 53 + 1] that
    [ConstantLR] returns. *)
Lemma InverseScalingLR_power_zero_not_constant :
  (InverseScalingLR.get (2 ^ 1024)
     (InverseScalingLR.new (Float 0.5) (Some (Float 0)))
   = Done (Err OverflowError, InverseScalingLR.new (Float 0.5) (Some (Float 0)))
   /\ ConstantLR.get (2 ^ 1024) (ConstantLR.new (Float 0.5))
      = Done (Ok (Num (Float 0.5)), ConstantLR.new (Float 0.5)))
  /\ (InverseScalingLR.get 0
        (InverseScalingLR.new (Int (2 ^ 53 + 1)) (Some (Int 0)))
      = Done (Ok (Num (Float (Z2float (2 ^ 53)))),
              InverseScalingLR.new (Int (2 ^ 53 + 1)) (Some (Int 0)))
      /\ ConstantLR.get 0 (ConstantLR.new (Int (2 ^ 53 + 1)))
         = Done (Ok (Num (Int (2 ^ 53 + 1))), ConstantLR.new (Int (2 ^ 53 + 1)))).
Proof. repeat split; vm_compute; reflexivity. Qed.

(** C8, as the code has it: with a zero [power],
    [InverseScalingLR(r, power).get(step)] is [r] converted to a float.
    For a float [r] it is [r], the value [ConstantLR(r).get(step)]
    returns; for an int [r] it is the float nearest to [r], or an
    [OverflowError] from [2 ^ 1024 - 2 ^ 970] on.  With the int power [0]
    this holds at every step; with a float zero it holds while
    [step + 1] converts to a float, and [get] raises [OverflowError] at the
    other steps. *)
Theorem InverseScalingLR_power_zero (r power : num) (step : Z) :
  num_is_zero power = true ->
  InverseScalingLR.get step (InverseScalingLR.new r (Some power))
  = Done (let rate :=
            match r with
            | Float x => Ok (Num (Float x))
            | Int z => if (Z.abs z <? int_too_large)%Z
                       then Ok (Num (Float (Z2float z))) else Err OverflowError
            end in
          match power with
          | Int _ => rate
          | Float _ => if (Z.abs (step + 1) <? int_too_large)%Z
                       then rate else Err OverflowError
          end,
          InverseScalingLR.new r (Some power))
  /\ ConstantLR.get step (ConstantLR.new r) = Done (Ok (Num r), ConstantLR.new r).
Proof.
  intros Hp. split; [| reflexivity]. cbv zeta.
  assert (C : forall z, float_of_int z
                        = if (Z.abs z <? int_too_large)%Z
                          then Ok (Z2float z) else Err OverflowError).
  { intros z. destruct (Z.ltb_spec (Z.abs z) int_too_large) as [H | H].
    - apply float_of_int_small, H.
    - apply float_of_int_overflow, H. }
  get_on_new. destruct power as [k | p]; cbn [num_is_zero] in Hp.
  - (* the int power: [(step + 1) ** 0] is the int [1] *)
    apply Z.eqb_eq in Hp. subst k.
    cbn [py_pow Z.ltb Z.compare]. rewrite Z.pow_0_r. cbn [libm_bind].
    f_equal. f_equal. destruct r as [z | x]; cbn [py_truediv].
    + unfold long_true_divide.
      change (1 =? 0)%Z with false. cbv iota. rewrite Zdiv2float_one.
      pose proof (C z) as Cz. unfold float_of_int in Cz.
      destruct (is_infinity (Z2float z));
        destruct (Z.abs z <? int_too_large)%Z; try discriminate; reflexivity.
    + unfold float_div, result_bind. cbn [to_double].
      rewrite float_of_int_1. change (1 =? 0)%float with false. cbv iota.
      rewrite div_one. reflexivity.
  - (* a float zero: the base is converted, then [x ** 0.0] is [1.0] *)
    cbn [py_pow]. unfold float_pow. cbn [to_double]. rewrite (C (step + 1)).
    destruct (Z.abs (step + 1) <? int_too_large)%Z; [| reflexivity].
    rewrite Hp. cbn [ret_float libm_bind py_truediv].
    f_equal. f_equal. unfold float_div, result_bind.
    change (1 =? 0)%float with false. cbv iota.
    destruct r as [z | x]; cbn [to_double].
    + rewrite (C z). destruct (Z.abs z <? int_too_large)%Z; [| reflexivity].
      rewrite div_one. reflexivity.
    + rewrite div_one. reflexivity.
Qed.

(** [InverseScalingLR(3, 0.0).get(7)] is [3.0]. *)
Lemma InverseScalingLR_power_zero_witness :
  num_is_zero (Float 0) = true /\
  InverseScalingLR.get 7 (InverseScalingLR.new (Int 3) (Some (Float 0)))
  = Done (Ok (Num (Float 3)), InverseScalingLR.new (Int 3) (Some (Float 0)))
  /\ ConstantLR.get 7 (ConstantLR.new (Int 3))
     = Done (Ok (Num (Int 3)), ConstantLR.new (Int 3)).
Proof.
  assert (H : num_is_zero (Float 0) = true) by reflexivity.
  exact (conj H (InverseScalingLR_power_zero (Int 3) (Float 0) 7 H)).
Defined.

(** ** Monotonicity *)

Lemma pos_le_pos x y :
  (0 <? x)%float = true -> (x <=? y)%float = true -> (0 <? y)%float = true.
Proof.
  rewrite !ltb_zero_spec, FloatAxioms.leb_spec. unfold SFleb.
  float_cases x mx ex; float_cases y my ey; intros _ H; try reflexivity;
    cbn [SFcompare] in H; discriminate.
Qed.

(** [a / d] for a finite positive [a] and two positive float denominators
    in order. *)
Lemma quotient_anti a d0 d1 r0 r1 :
  (0 <? a)%float = true -> is_infinity a = false ->
  (0 <=? d0)%float = true -> (d0 <=? d1)%float = true ->
  py_truediv (Float a) (Num (Float d0)) = Ok r0 ->
  py_truediv (Float a) (Num (Float d1)) = Ok r1 ->
  exists x0 x1, r0 = Num (Float x0) /\ r1 = Num (Float x1) /\
                (x1 <=? x0)%float = true /\ (0 <=? x1)%float = true.
Proof.
  intros Pa Ia N L. cbn [py_truediv]. unfold float_div, result_bind. cbn [to_double].
  destruct (d0 =? 0)%float eqn:Z0; [discriminate |].
  destruct (d1 =? 0)%float eqn:Z1; [discriminate |].
  intros [= <-] [= <-].
  pose proof (nonneg_nonzero_pos d0 N Z0) as P0.
  pose proof (pos_le_pos d0 d1 P0 L) as P1.
  exists (a / d0)%float, (a / d1)%float. repeat split.
  - apply div_anti; auto.
  - apply div_nonneg; auto.
Qed.

(** [a / n] for two positive int denominators in order. *)
Lemma quotient_anti_int a n0 n1 r0 r1 :
  (0 <? a)%float = true -> is_infinity a = false ->
  (0 < n0 <= n1)%Z ->
  py_truediv (Float a) (Num (Int n0)) = Ok r0 ->
  py_truediv (Float a) (Num (Int n1)) = Ok r1 ->
  exists x0 x1, r0 = Num (Float x0) /\ r1 = Num (Float x1) /\
                (x1 <=? x0)%float = true /\ (0 <=? x1)%float = true.
Proof.
  intros Pa Ia H. cbn [py_truediv]. unfold float_div. cbn [to_double result_bind].
  destruct (float_of_int n0) as [y0 | e0] eqn:E0; [| discriminate].
  destruct (float_of_int n1) as [y1 | e1] eqn:E1; [| discriminate].
  destruct (float_of_int_Ok n0 y0 E0) as [-> _].
  destruct (float_of_int_Ok n1 y1 E1) as [-> _].
  intros H0 H1.
  apply (quotient_anti a (Z2float n0) (Z2float n1)); try assumption.
  - apply Z2float_nonneg. lia.
  - apply Z2float_mono. lia.
Qed.

Lemma reciprocal_anti d0 d1 r0 r1 :
  (0 <=? d0)%float = true -> (d0 <=? d1)%float = true ->
  py_truediv (Float 1) (Num (Float d0)) = Ok r0 ->
  py_truediv (Float 1) (Num (Float d1)) = Ok r1 ->
  exists x0 x1, r0 = Num (Float x0) /\ r1 = Num (Float x1) /\
                (x1 <=? x0)%float = true /\ (0 <=? x1)%float = true.
Proof. apply quotient_anti; reflexivity. Qed.

Lemma reciprocal_anti_int n0 n1 r0 r1 :
  (0 < n0 <= n1)%Z ->
  py_truediv (Float 1) (Num (Int n0)) = Ok r0 ->
  py_truediv (Float 1) (Num (Int n1)) = Ok r1 ->
  exists x0 x1, r0 = Num (Float x0) /\ r1 = Num (Float x1) /\
                (x1 <=? x0)%float = true /\ (0 <=? x1)%float = true.
Proof. apply quotient_anti_int; reflexivity. Qed.

(** The float a positive number converts to is positive. *)
Lemma to_double_pos n y : num_pos n = true -> to_double n = Ok y -> (0 <? y)%float = true.
Proof.
  destruct n as [z | x]; cbn [num_pos to_double].
  - intros Hz E. destruct (float_of_int_Ok z y E) as [-> _].
    apply Z2float_pos_ltb. lia.
  - intros Hx [= <-]. exact Hx.
Qed.

Lemma py_mul_float_r a s :
  py_mul a (Float s) = result_bind (to_double a) (fun x => Ok (Float (x * s))).
Proof. destruct a; reflexivity. Qed.

Lemma py_mul_int_r a n :
  py_mul (Float a) (Int n) = result_bind (float_of_int n) (fun y => Ok (Float (a * y))).
Proof. reflexivity. Qed.

(** [alpha * s] for a positive [alpha] and two positive floats in order. *)
Lemma py_mul_mono alpha s0 s1 d0 d1 :
  num_pos alpha = true ->
  (0 <? s0)%float = true -> (s0 <=? s1)%float = true ->
  py_mul alpha (Float s0) = Ok d0 -> py_mul alpha (Float s1) = Ok d1 ->
  exists y0 y1, d0 = Float y0 /\ d1 = Float y1 /\
                (0 <=? y0)%float = true /\ (y0 <=? y1)%float = true.
Proof.
  intros Ha P L. rewrite !py_mul_float_r. unfold result_bind.
  destruct (to_double alpha) as [a | e] eqn:Ea; [| discriminate].
  intros [= <-] [= <-].
  pose proof (to_double_pos alpha a Ha Ea) as Pa.
  exists (a * s0)%float, (a * s1)%float. repeat split.
  - apply mul_nonneg; assumption.
  - apply mul_mono; assumption.
Qed.

(** C4, as the code has it: for [alpha > 0], [t0 > 0] and a step [>= 0],
    when [get] returns at the step and at the next one, it returns two
    floats, the second not above the first and not negative.  (Rounding can
    make them equal, and a denominator that overflows makes the rate
    [0.0].) *)
Theorem OptimalLR_get_nonincreasing (t0 alpha : num) (step : Z) (r0 r1 : value) :
  num_pos t0 = true -> num_pos alpha = true -> (0 <= step)%Z ->
  OptimalLR.get step (OptimalLR.new (Some t0) (Some alpha))
  = Done (Ok r0, OptimalLR.new (Some t0) (Some alpha)) ->
  OptimalLR.get (step + 1) (OptimalLR.new (Some t0) (Some alpha))
  = Done (Ok r1, OptimalLR.new (Some t0) (Some alpha)) ->
  exists x0 x1, r0 = Num (Float x0) /\ r1 = Num (Float x1) /\
                (x1 <=? x0)%float = true /\ (0 <=? x1)%float = true.
Proof.
  intros Ht Ha Hs. rewrite !OptimalLR_get_new.
  intros [= H0] [= H1]. revert H0 H1.
  unfold spec_Optimal_rateAt, spec_Optimal_denominator.
  destruct t0 as [z0 | x0]; cbn [num_pos] in Ht.
  - (* an int [t0]: the sum is exact *)
    cbn [py_add result_bind].
    assert (Hn : (0 < step + z0 <= step + 1 + z0)%Z) by lia.
    destruct alpha as [a | a]; cbn [num_pos] in Ha.
    + cbn [py_mul result_bind]. apply reciprocal_anti_int. nia.
    + rewrite !py_mul_int_r. unfold result_bind at 2 4.
      destruct (float_of_int (step + z0)) as [y0 | e0] eqn:E0; [| discriminate].
      destruct (float_of_int (step + 1 + z0)) as [y1 | e1] eqn:E1; [| discriminate].
      destruct (float_of_int_Ok _ y0 E0) as [-> _].
      destruct (float_of_int_Ok _ y1 E1) as [-> _].
      cbn [result_bind]. apply reciprocal_anti.
      * apply mul_nonneg; [exact Ha | apply Z2float_pos_ltb; lia].
      * apply mul_mono; [exact Ha | apply Z2float_pos_ltb; lia | apply Z2float_mono; lia].
  - (* a float [t0]: the step is converted and added *)
    cbn [py_add to_double]. unfold result_bind at 2 5.
    destruct (float_of_int step) as [y0 | e0] eqn:E0; [| discriminate].
    destruct (float_of_int (step + 1)) as [y1 | e1] eqn:E1; [| discriminate].
    destruct (float_of_int_Ok _ y0 E0) as [-> _].
    destruct (float_of_int_Ok _ y1 E1) as [-> _].
    cbn [result_bind].
    destruct (py_mul alpha (Float (Z2float step + x0))) as [d0 | e] eqn:D0; [| discriminate].
    destruct (py_mul alpha (Float (Z2float (step + 1) + x0))) as [d1 | e] eqn:D1;
      [| discriminate].
    assert (P : (0 <? Z2float step + x0)%float = true)
      by (apply add_pos; [apply Z2float_nonneg; lia | exact Ht]).
    assert (L : (Z2float step + x0 <=? Z2float (step + 1) + x0)%float = true)
      by (apply add_mono; [apply Z2float_nonneg; lia | apply Z2float_mono; lia
                           | apply pos_nonneg, Ht]).
    destruct (py_mul_mono alpha _ _ d0 d1 Ha P L D0 D1) as (y0 & y1 & -> & -> & N & L').
    cbn [result_bind]. apply reciprocal_anti; assumption.
Qed.





(** *** Concrete schedules *)

(** [OptimalLR().get(0)] is [10.0] and [OptimalLR().get(1)] is
    [1 / (1e-4 * 1001)]. *)
Lemma OptimalLR_get_nonincreasing_witness :
  num_pos (Int 1000) = true /\ num_pos OptimalLR.default_alpha = true /\ (0 <= 0)%Z /\
  exists x0 x1,
    Num (Float 10) = Num (Float x0) /\
    Num (Float (1 / (0x1.a36e2eb1c432dp-14 * 1001))) = Num (Float x1) /\
    (x1 <=? x0)%float = true /\ (0 <=? x1)%float = true.
Proof.
  assert (H1 : num_pos (Int 1000) = true) by reflexivity.
  assert (H2 : num_pos OptimalLR.default_alpha = true) by reflexivity.
  assert (H3 : (0 <= 0)%Z) by lia.
  exact (conj H1 (conj H2 (conj H3
    (OptimalLR_get_nonincreasing (Int 1000) OptimalLR.default_alpha 0
       (Num (Float 10)) (Num (Float (1 / (0x1.a36e2eb1c432dp-14 * 1001))))
       H1 H2 H3 eq_refl eq_refl)))).
Defined.

(** Against C4 as stated: with [t0 = 1e16] (and the default [alpha]) the
    rates at steps 0 and 1 are the same float, since [1 + 1e16] rounds to
    [1e16]; and with [t0 = alpha = 1e308] the denominator overflows to
    infinity and the rate is [0.0]. *)
Lemma OptimalLR_get_not_strict :
  (num_pos (Float 1e16) = true /\ num_pos OptimalLR.default_alpha = true /\
   OptimalLR.get 0 (OptimalLR.new (Some (Float 1e16)) (Some OptimalLR.default_alpha))
   = Done (Ok (Num (Float (1 / (0x1.a36e2eb1c432dp-14 * 1e16)))),
           OptimalLR.new (Some (Float 1e16)) (Some OptimalLR.default_alpha)) /\
   OptimalLR.get 1 (OptimalLR.new (Some (Float 1e16)) (Some OptimalLR.default_alpha))
   = Done (Ok (Num (Float (1 / (0x1.a36e2eb1c432dp-14 * 1e16)))),
           OptimalLR.new (Some (Float 1e16)) (Some OptimalLR.default_alpha)) /\
   (1 / (0x1.a36e2eb1c432dp-14 * 1e16) <? 1 / (0x1.a36e2eb1c432dp-14 * 1e16))%float = false)
  /\
  (num_pos (Float 0x1.1ccf385ebc8ap+1023) = true /\
   OptimalLR.get 0 (OptimalLR.new (Some (Float 0x1.1ccf385ebc8ap+1023))
                                  (Some (Float 0x1.1ccf385ebc8ap+1023)))
   = Done (Ok (Num (Float 0)),
           OptimalLR.new (Some (Float 0x1.1ccf385ebc8ap+1023))
                         (Some (Float 0x1.1ccf385ebc8ap+1023))) /\
   (0 <? 0)%float = false).
Proof. repeat split. Qed.




(** * Further properties of the schedulers *)

(** ** The first step *)

(** [1 ** p] is [1.0] for every float [p], NaN and the infinities
    included, without a call to the math library. *)
Lemma py_pow_one_base p : py_pow (Int 1) (Float p) = ret_float 1.
Proof.
  cbn [py_pow]. unfold float_pow. cbn [to_double]. rewrite float_of_int_1.
  change (is_nan 1) with false. change (is_infinity 1) with false.
  change (abs 1 =? 1)%float with true. change (1 =? 1)%float with true.
  change (1 =? 0)%float with false. change (1 <? 0)%float with false.
  unfold float_pow_finish. change (1 =? 1)%float with true. cbv iota.
  destruct (p =? 0)%float; [reflexivity |].
  destruct (is_nan p); [reflexivity |].
  destruct (is_infinity p); reflexivity.
Qed.

(** At step 0 [InverseScalingLR.get] returns the [learning_rate] it was
    built with, for every float [learning_rate] and every float [power]. *)
Theorem InverseScalingLR_get_first_step (learning_rate power : float) :
  InverseScalingLR.get 0 (InverseScalingLR.new (Float learning_rate) (Some (Float power)))
  = Done (Ok (Num (Float learning_rate)),
          InverseScalingLR.new (Float learning_rate) (Some (Float power))).
Proof.
  get_on_new. change (0 + 1)%Z with 1%Z. rewrite py_pow_one_base.
  cbn [ret_float libm_bind py_truediv]. unfold float_div, result_bind. cbn [to_double].
  change (1 =? 0)%float with false. cbv iota. rewrite div_one. reflexivity.
Qed.

(** ** The type of the result *)

Lemma nonneg_not_neg x : (0 <=? x)%float = true -> (x <? 0)%float = false.
Proof.
  rewrite leb_zero_spec, ltb_spec_zero. float_cases x m e; auto.
Qed.

Lemma float_pow_finish_float iv iw negate_result :
  all_leaves float_or_error (float_pow_finish iv iw negate_result).
Proof.
  unfold float_pow_finish. destruct (iv =? 1)%float; [exact I |].
  cbn [all_leaves]. intros ix. destruct (is_infinity _); exact I.
Qed.

(** A power of a non-negative int is a number, never a complex. *)
Lemma py_pow_nonneg_base z p :
  (0 <= z)%Z ->
  all_leaves (fun r => match r with Ok (Complex _ _) => False | _ => True end)
             (py_pow (Int z) p).
Proof.
  intros Hz.
  assert (F : forall w, all_leaves float_or_error (float_pow (Int z) w)).
  { intros w. unfold float_pow. cbn [to_double].
    destruct (float_of_int z) as [iv | e] eqn:E; [| exact I].
    destruct (float_of_int_Ok z iv E) as [-> _].
    rewrite (nonneg_not_neg _ (Z2float_nonneg z Hz)).
    destruct (to_double w) as [iw | e]; [| exact I].
    repeat match goal with
           | |- all_leaves _ (if ?b then _ else _) => destruct b
           | |- all_leaves _ (let _ := _ in _) => cbv zeta
           end;
      try exact I; apply float_pow_finish_float. }
  assert (G : forall w, all_leaves
                          (fun r => match r with Ok (Complex _ _) => False | _ => True end)
                          (float_pow (Int z) w)).
  { intros w. eapply all_leaves_impl; [| apply F].
    intros [[[k | x] | re im] | e]; cbn; auto. }
  destruct p as [k | x]; cbn [py_pow]; [| apply G].
  destruct (k <? 0)%Z; [apply G | exact I].
Qed.

(** A number divided by a number is a float. *)
Lemma py_truediv_num_float a n : float_or_error (py_truediv a (Num n)).
Proof.
  destruct a as [x | x], n as [y | y]; cbn [py_truediv];
    unfold long_true_divide, float_div, result_bind; cbn [to_double];
    repeat match goal with
           | |- context [float_of_int ?z] => destruct (float_of_int z)
           | |- context [if ?b then _ else _] => destruct b
           end; exact I.
Qed.

(** From step [-1] on, [InverseScalingLR.get] returns a float or raises,
    whatever the parameters and whatever the math library answers: the
    complex results start at step [-2]. *)
Theorem InverseScalingLR_get_float (learning_rate power : num) (step : Z) :
  (-1 <= step)%Z ->
  all_leaves (fun rs => float_or_error (fst rs))
    (InverseScalingLR.get step (InverseScalingLR.new learning_rate (Some power))).
Proof.
  intros Hs. get_on_new.
  apply all_leaves_bind
    with (P := fun rs : result value * obj =>
                 match fst rs with Ok (Complex _ _) => False | _ => True end).
  - eapply all_leaves_bind; [apply (py_pow_nonneg_base (step + 1) power); lia |].
    intros r Hr. exact Hr.
  - intros [r self'] Hr. cbn [fst] in Hr.
    destruct r as [[n | re im] | e]; cbn [all_leaves fst].
    + apply py_truediv_num_float.
    + destruct Hr.
    + exact I.
Qed.

(** [InverseScalingLR(1.0).get(-1)], which raises. *)
Lemma InverseScalingLR_get_float_witness :
  (-1 <= -1)%Z /\
  all_leaves (fun rs => float_or_error (fst rs))
    (InverseScalingLR.get (-1) (InverseScalingLR.new (Float 1) (Some (Float 0.5)))).
Proof.
  assert (H : (-1 <= -1)%Z) by lia.
  exact (conj H (InverseScalingLR_get_float (Float 1) (Float 0.5) (-1) H)).
Defined.

(** ** Any two steps *)

(** Between any two steps [0 <= s <= s'] at which it returns,
    [OptimalLR.get] does not increase, for positive parameters: the rate
    never exceeds an earlier one. *)
Theorem OptimalLR_get_monotone (t0 alpha : num) (s s' : Z) (r r' : value) :
  num_pos t0 = true -> num_pos alpha = true -> (0 <= s <= s')%Z ->
  OptimalLR.get s (OptimalLR.new (Some t0) (Some alpha))
  = Done (Ok r, OptimalLR.new (Some t0) (Some alpha)) ->
  OptimalLR.get s' (OptimalLR.new (Some t0) (Some alpha))
  = Done (Ok r', OptimalLR.new (Some t0) (Some alpha)) ->
  exists x x', r = Num (Float x) /\ r' = Num (Float x') /\
               (x' <=? x)%float = true /\ (0 <=? x')%float = true.
Proof.
  intros Ht Ha Hs. rewrite !OptimalLR_get_new.
  intros [= H0] [= H1]. revert H0 H1.
  unfold spec_Optimal_rateAt, spec_Optimal_denominator.
  destruct t0 as [z0 | x0]; cbn [num_pos] in Ht.
  - cbn [py_add result_bind].
    assert (Hn : (0 < s + z0 <= s' + z0)%Z) by lia.
    destruct alpha as [a | a]; cbn [num_pos] in Ha.
    + cbn [py_mul result_bind]. apply reciprocal_anti_int. nia.
    + rewrite !py_mul_int_r. unfold result_bind at 2 4.
      destruct (float_of_int (s + z0)) as [y0 | e0] eqn:E0; [| discriminate].
      destruct (float_of_int (s' + z0)) as [y1 | e1] eqn:E1; [| discriminate].
      destruct (float_of_int_Ok _ y0 E0) as [-> _].
      destruct (float_of_int_Ok _ y1 E1) as [-> _].
      cbn [result_bind]. apply reciprocal_anti.
      * apply mul_nonneg; [exact Ha | apply Z2float_pos_ltb; lia].
      * apply mul_mono; [exact Ha | apply Z2float_pos_ltb; lia | apply Z2float_mono; lia].
  - cbn [py_add to_double]. unfold result_bind at 2 5.
    destruct (float_of_int s) as [y0 | e0] eqn:E0; [| discriminate].
    destruct (float_of_int s') as [y1 | e1] eqn:E1; [| discriminate].
    destruct (float_of_int_Ok _ y0 E0) as [-> _].
    destruct (float_of_int_Ok _ y1 E1) as [-> _].
    cbn [result_bind].
    destruct (py_mul alpha (Float (Z2float s + x0))) as [d0 | e] eqn:D0; [| discriminate].
    destruct (py_mul alpha (Float (Z2float s' + x0))) as [d1 | e] eqn:D1; [| discriminate].
    assert (P : (0 <? Z2float s + x0)%float = true)
      by (apply add_pos; [apply Z2float_nonneg; lia | exact Ht]).
    assert (L : (Z2float s + x0 <=? Z2float s' + x0)%float = true)
      by (apply add_mono; [apply Z2float_nonneg; lia | apply Z2float_mono; lia
                           | apply pos_nonneg, Ht]).
    destruct (py_mul_mono alpha _ _ d0 d1 Ha P L D0 D1) as (y0 & y1 & -> & -> & N & L').
    cbn [result_bind]. apply reciprocal_anti; assumption.
Qed.

(** [OptimalLR()] at steps 0 and 1000: [10.0] and [5.0]. *)
Lemma OptimalLR_get_monotone_witness :
  num_pos (Int 1000) = true /\ num_pos OptimalLR.default_alpha = true /\
  (0 <= 0 <= 1000)%Z /\
  exists x x', Num (Float 10) = Num (Float x) /\ Num (Float 5) = Num (Float x') /\
               (x' <=? x)%float = true /\ (0 <=? x')%float = true.
Proof.
  assert (H1 : num_pos (Int 1000) = true) by reflexivity.
  assert (H2 : num_pos OptimalLR.default_alpha = true) by reflexivity.
  assert (H3 : (0 <= 0 <= 1000)%Z) by lia.
  exact (conj H1 (conj H2 (conj H3
    (OptimalLR_get_monotone (Int 1000) OptimalLR.default_alpha 0 1000
       (Num (Float 10)) (Num (Float 5)) H1 H2 H3 eq_refl eq_refl)))).
Defined.




(** ** Where the rate is strictly positive *)

(** The reciprocal of a positive finite float is positive. *)
Lemma reciprocal_pos d :
  (0 <? d)%float = true -> is_infinity d = false -> (0 <? 1 / d)%float = true.
Proof.
  intros P F.
  apply (pos_le_pos (1 / float_max)); [reflexivity |].
  apply div_anti; [reflexivity | reflexivity | exact P | apply le_float_max; assumption].
Qed.

(** The denominator of [OptimalLR.get] for positive parameters and a step
    [>= 0]: a positive int, or a float that is not negative. *)
Lemma Optimal_denominator_nonneg t0 alpha step d :
  num_pos t0 = true -> num_pos alpha = true -> (0 <= step)%Z ->
  spec_Optimal_denominator t0 alpha step = Ok d ->
  (exists n, d = Int n /\ (0 < n)%Z) \/ (exists y, d = Float y /\ (0 <=? y)%float = true).
Proof.
  intros Ht Ha Hs. unfold spec_Optimal_denominator.
  destruct t0 as [z0 | x0]; cbn [num_pos] in Ht.
  - cbn [py_add result_bind].
    destruct alpha as [a | a]; cbn [num_pos] in Ha.
    + cbn [py_mul]. intros [= <-]. left. eexists. split; [reflexivity | nia].
    + rewrite py_mul_int_r. unfold result_bind.
      destruct (float_of_int (step + z0)) as [y | e] eqn:E; [| discriminate].
      destruct (float_of_int_Ok _ y E) as [-> _].
      intros [= <-]. right. eexists. split; [reflexivity |].
      apply mul_nonneg; [exact Ha | apply Z2float_pos_ltb; lia].
  - cbn [py_add to_double]. unfold result_bind at 2.
    destruct (float_of_int step) as [y | e] eqn:E; [| discriminate].
    destruct (float_of_int_Ok _ y E) as [-> _]. cbn [result_bind].
    intros D. right.
    assert (P : (0 <? Z2float step + x0)%float = true)
      by (apply add_pos; [apply Z2float_nonneg; lia | exact Ht]).
    assert (L : (Z2float step + x0 <=? Z2float step + x0)%float = true)
      by (apply leb_refl, pos_not_nan, P).
    destruct (py_mul_mono alpha _ _ d d Ha P L D D) as (y0 & _ & -> & _ & N & _).
    eauto.
Qed.

(** [1. / d] for a float [d] that is not negative: positive, or [0.0] when
    [d] is [inf]. *)
Lemma reciprocal_float d r :
  (0 <=? d)%float = true ->
  py_truediv (Float 1) (Num (Float d)) = Ok r ->
  exists x, r = Num (Float x) /\
            if is_infinity d then x = 0%float else (0 <? x)%float = true.
Proof.
  intros N. cbn [py_truediv]. unfold float_div, result_bind. cbn [to_double].
  destruct (d =? 0)%float eqn:Z; [discriminate |]. intros [= <-].
  pose proof (nonneg_nonzero_pos d N Z) as P.
  exists (1 / d)%float. split; [reflexivity |].
  destruct (is_infinity d) eqn:I.
  - rewrite (pos_infinity d P I). reflexivity.
  - apply reciprocal_pos; assumption.
Qed.

Lemma reciprocal_int n r :
  (0 < n)%Z ->
  py_truediv (Float 1) (Num (Int n)) = Ok r ->
  exists x, r = Num (Float x) /\ (0 <? x)%float = true.
Proof.
  intros Hn. cbn [py_truediv]. unfold float_div. cbn [to_double result_bind].
  destruct (float_of_int n) as [y | e] eqn:E; [| discriminate].
  destruct (float_of_int_Ok n y E) as [-> I].
  pose proof (Z2float_pos_ltb n Hn) as P.
  destruct (pos_tests _ P) as (Z & _). cbn [result_bind]. rewrite Z.
  cbn [result_bind]. intros [= <-]. eexists. split; [reflexivity |].
  apply reciprocal_pos; assumption.
Qed.

(** For positive parameters and a step [>= 0], what [OptimalLR.get]
    returns is a float that is strictly positive, unless the denominator
    [alpha * (step + t0)] has overflowed to [inf]: then it is [0.0]. *)
Theorem OptimalLR_get_positive (t0 alpha : num) (step : Z) (r : value) :
  num_pos t0 = true -> num_pos alpha = true -> (0 <= step)%Z ->
  OptimalLR.get step (OptimalLR.new (Some t0) (Some alpha))
  = Done (Ok r, OptimalLR.new (Some t0) (Some alpha)) ->
  exists x, r = Num (Float x) /\
            ((0 <? x)%float = true \/
             x = 0%float /\
             spec_Optimal_denominator t0 alpha step = Ok (Float infinity)).
Proof.
  intros Ht Ha Hs. rewrite OptimalLR_get_new. intros [= H]. revert H.
  unfold spec_Optimal_rateAt.
  destruct (spec_Optimal_denominator t0 alpha step) as [d | e] eqn:D; [| discriminate].
  cbn [result_bind]. intros H.
  destruct (Optimal_denominator_nonneg t0 alpha step d Ht Ha Hs D)
    as [(n & -> & Hn) | (y & -> & Hy)].
  - destruct (reciprocal_int n r Hn H) as (x & -> & P). eauto.
  - destruct (reciprocal_float y r Hy H) as (x & -> & P). exists x. split; [reflexivity |].
    destruct (is_infinity y) eqn:I; [right | left; exact P].
    split; [exact P |]. f_equal. f_equal. apply pos_infinity; [| exact I].
    apply nonneg_nonzero_pos; [exact Hy |].
    revert H. cbn [py_truediv]. unfold float_div, result_bind. cbn [to_double].
    destruct (y =? 0)%float; [discriminate | reflexivity].
Qed.

(** [OptimalLR().get(0)] is [10.0]. *)
Lemma OptimalLR_get_positive_witness :
  num_pos (Int 1000) = true /\ num_pos OptimalLR.default_alpha = true /\ (0 <= 0)%Z /\
  exists x, Num (Float 10) = Num (Float x) /\
            ((0 <? x)%float = true \/
             x = 0%float /\
             spec_Optimal_denominator (Int 1000) OptimalLR.default_alpha 0
             = Ok (Float infinity)).
Proof.
  assert (Ht : num_pos (Int 1000) = true) by reflexivity.
  assert (Ha : num_pos OptimalLR.default_alpha = true) by reflexivity.
  assert (Hs : (0 <= 0)%Z) by lia.
  exact (conj Ht (conj Ha (conj Hs
    (OptimalLR_get_positive (Int 1000) OptimalLR.default_alpha 0 (Num (Float 10))
       Ht Ha Hs eq_refl)))).
Defined.

(** ** The default schedule *)

(** [OptimalLR()], with [t0 = 1000] and [alpha = 1e-4], at a step [>= 0]:
    while [step + 1000] is below [2 ^ 1024 - 2 ^ 970] the rate is a float in
    [(0, 10]]; from there on [get] raises [OverflowError], the sum being an
    int too large to convert to a float. *)
Theorem OptimalLR_default_get (step : Z) :
  (0 <= step)%Z ->
  exists r, OptimalLR.get step (OptimalLR.new None None)
            = Done (r, OptimalLR.new None None)
            /\ match r with
               | Ok (Num (Float x)) =>
                   (step + 1000 < int_too_large)%Z
                   /\ (0 <? x)%float = true /\ (x <=? 10)%float = true
               | Err OverflowError => (int_too_large <= step + 1000)%Z
               | _ => False
               end.
Proof.
  intros Hs.
  change (OptimalLR.new None None)
    with (OptimalLR.new (Some (Int 1000)) (Some OptimalLR.default_alpha)).
  rewrite OptimalLR_get_new.
  unfold spec_Optimal_rateAt, spec_Optimal_denominator, OptimalLR.default_alpha.
  cbn [py_add result_bind]. rewrite py_mul_int_r.
  destruct (Z_lt_le_dec (step + 1000) int_too_large) as [H | H].
  - rewrite float_of_int_small by lia. cbn [result_bind py_truediv].
    unfold float_div, result_bind. cbn [to_double].
    set (a := 0x1.a36e2eb1c432dp-14%float).
    set (y := Z2float (step + 1000)).
    assert (Pa : (0 <? a)%float = true) by reflexivity.
    assert (L : (a * Z2float 1000 <=? a * y)%float = true).
    { apply mul_mono; [exact Pa | reflexivity | apply Z2float_mono; lia]. }
    assert (U : (a * y <=? a * float_max)%float = true).
    { rewrite <- Z2float_largest.
      apply mul_mono; [exact Pa | apply Z2float_pos_ltb; lia | apply Z2float_mono; lia]. }
    assert (P : (0 <? a * y)%float = true).
    { apply (pos_le_pos (a * Z2float 1000)); [reflexivity | exact L]. }
    assert (F : is_infinity (a * y) = false).
    { apply (le_finite _ (a * float_max));
        [apply pos_nonneg, P | exact U | reflexivity]. }
    destruct (pos_tests _ P) as (Z & _). rewrite Z.
    eexists. split; [reflexivity |]. cbv beta iota. split; [exact H |]. split.
    + apply reciprocal_pos; assumption.
    + change 10%float with (1 / (a * Z2float 1000))%float.
      apply div_anti; [reflexivity | reflexivity | reflexivity | exact L].
  - assert (E : float_of_int (step + 1000) = Err OverflowError)
      by (apply float_of_int_overflow; lia).
    rewrite E. eexists. split; [reflexivity | exact H].
Qed.

(** [OptimalLR().get(0)]. *)
Lemma OptimalLR_default_get_witness :
  (0 <= 0)%Z /\
  exists r, OptimalLR.get 0 (OptimalLR.new None None)
            = Done (r, OptimalLR.new None None)
            /\ match r with
               | Ok (Num (Float x)) =>
                   (0 + 1000 < int_too_large)%Z
                   /\ (0 <? x)%float = true /\ (x <=? 10)%float = true
               | Err OverflowError => (int_too_large <= 0 + 1000)%Z
               | _ => False
               end.
Proof.
  assert (H : (0 <= 0)%Z) by lia.
  exact (conj H (OptimalLR_default_get 0 H)).
Defined.

(** ** The pole of [OptimalLR] *)

(** [OptimalLR(t0, alpha).get(-t0)] raises [ZeroDivisionError] for every
    int [t0] and every [alpha] that is an int or a finite float. *)
Theorem OptimalLR_get_pole (t0 : Z) (alpha : num) :
  num_finite alpha = true ->
  OptimalLR.get (- t0) (OptimalLR.new (Some (Int t0)) (Some alpha))
  = Done (Err ZeroDivisionError, OptimalLR.new (Some (Int t0)) (Some alpha)).
Proof.
  intros F. rewrite OptimalLR_get_new. f_equal. f_equal.
  unfold spec_Optimal_rateAt, spec_Optimal_denominator. cbn [py_add result_bind].
  replace (- t0 + t0)%Z with 0%Z by lia.
  destruct alpha as [a | x]; cbn [num_finite] in F.
  - cbn [py_mul result_bind]. rewrite Z.mul_0_r. reflexivity.
  - rewrite py_mul_int_r, float_of_int_0. cbn [result_bind].
    apply py_truediv_float_zde. cbn [value_is_zero num_is_zero].
    apply andb_prop in F. destruct F as [N I].
    apply mul_zero_r; [destruct (is_nan x) | destruct (is_infinity x)];
      (reflexivity || discriminate).
Qed.

(** [OptimalLR().get(-1000)] raises [ZeroDivisionError]. *)
Lemma OptimalLR_get_pole_witness :
  num_finite OptimalLR.default_alpha = true /\
  OptimalLR.get (- 1000) (OptimalLR.new (Some (Int 1000)) (Some OptimalLR.default_alpha))
  = Done (Err ZeroDivisionError,
          OptimalLR.new (Some (Int 1000)) (Some OptimalLR.default_alpha)).
Proof.
  assert (F : num_finite OptimalLR.default_alpha = true) by reflexivity.
  exact (conj F (OptimalLR_get_pole 1000 OptimalLR.default_alpha F)).
Defined.

(** ** The call to [pow] *)

(** [z ** p] for an int [z >= 2] that converts to a float and a finite
    nonzero float [p]: one call to the platform's [pow], whose infinite
    answer is an [OverflowError]. *)
Lemma py_pow_call z p :
  (2 <= z < int_too_large)%Z ->
  is_nan p = false -> is_infinity p = false -> (p =? 0)%float = false ->
  py_pow (Int z) (Float p)
  = Call c_pow [Z2float z; p] (fun ix =>
      if is_infinity ix then Done (Err OverflowError) else ret_float ix).
Proof.
  intros Hz Np Ip Zp. cbn [py_pow]. unfold float_pow. cbn [to_double].
  rewrite float_of_int_small by lia.
  assert (F : float_of_int z = Ok (Z2float z)) by (apply float_of_int_small; lia).
  destruct (float_of_int_Ok z _ F) as [_ II].
  pose proof (Z2float_pos_ltb z ltac:(lia)) as Pz.
  destruct (pos_tests (Z2float z) Pz) as (Z0 & ZL & ZN).
  destruct (Z2float_ge_two z ltac:(lia)) as [E1 _].
  rewrite Zp, ZN, Np, Ip, II, Z0, ZL. unfold float_pow_finish. rewrite E1.
  reflexivity.
Qed.

(** From step 1 on, for a float [learning_rate] and a finite nonzero float
    [power], [InverseScalingLR.get] is [learning_rate / pow(step + 1,
    power)] with the platform's [pow]: it raises [OverflowError] when [pow]
    answers an infinity, [ZeroDivisionError] when [pow] answers zero, and
    returns a float otherwise. *)
Theorem InverseScalingLR_get_pow
        (o : oracle) (learning_rate power : float) (step : Z) :
  (1 <= step)%Z -> (step + 1 < int_too_large)%Z ->
  is_nan power = false -> is_infinity power = false -> (power =? 0)%float = false ->
  fst (run o (InverseScalingLR.get step)
           (InverseScalingLR.new (Float learning_rate) (Some (Float power))))
  = let d := o c_pow [Z2float (step + 1); power] in
    if is_infinity d then Err OverflowError
    else if (d =? 0)%float then Err ZeroDivisionError
    else Ok (Num (Float (learning_rate / d))).
Proof.
  intros Hs Hl Np Ip Zp. rewrite InverseScalingLR_get_new. cbn [fst].
  unfold spec_InverseScaling_rateAt. rewrite answer_bind.
  rewrite py_pow_call by (lia || assumption). cbn [answer]. cbv zeta.
  destruct (is_infinity (o c_pow [Z2float (step + 1); power])); [reflexivity |].
  cbn [ret_float answer result_bind py_truediv].
  unfold float_div, result_bind. cbn [to_double].
  destruct (o c_pow [Z2float (step + 1); power] =? 0)%float; reflexivity.
Qed.

(** [InverseScalingLR(1.0, 1.0).get(3)] is [0.25] when [pow(4.0, 1.0)] is
    [4.0]. *)
Lemma InverseScalingLR_get_pow_witness :
  (1 <= 3)%Z /\ (3 + 1 < int_too_large)%Z /\
  is_nan 1 = false /\ is_infinity 1 = false /\ (1 =? 0)%float = false /\
  fst (run libm_first (InverseScalingLR.get 3)
           (InverseScalingLR.new (Float 1) (Some (Float 1))))
  = Ok (Num (Float 0.25)).
Proof.
  assert (Hs : (1 <= 3)%Z) by lia.
  assert (Hl : (3 + 1 < int_too_large)%Z) by (vm_compute; reflexivity).
  assert (N : is_nan 1 = false) by reflexivity.
  assert (I : is_infinity 1 = false) by reflexivity.
  assert (Z : (1 =? 0)%float = false) by reflexivity.
  exact (conj Hs (conj Hl (conj N (conj I (conj Z
    (InverseScalingLR_get_pow libm_first 1 1 3 Hs Hl N I Z)))))).
Defined.

(** ** A float power that is zero *)

(** With [power] a float zero, of either sign, [InverseScalingLR.get]
    returns the [learning_rate] at every step where [step + 1] converts to a
    float, and raises [OverflowError] at the others: [(step + 1) ** 0.0]
    converts the base before it looks at the exponent. *)
Theorem InverseScalingLR_float_zero_power (learning_rate power : float) (step : Z) :
  (power =? 0)%float = true ->
  InverseScalingLR.get step
    (InverseScalingLR.new (Float learning_rate) (Some (Float power)))
  = Done (if (Z.abs (step + 1) <? int_too_large)%Z
          then Ok (Num (Float learning_rate)) else Err OverflowError,
          InverseScalingLR.new (Float learning_rate) (Some (Float power))).
Proof.
  intros Zp. get_on_new. cbn [py_pow]. unfold float_pow. cbn [to_double].
  destruct (Z.ltb_spec (Z.abs (step + 1)) int_too_large) as [H | H].
  - rewrite float_of_int_small by exact H. rewrite Zp.
    cbn [ret_float libm_bind py_truediv]. unfold float_div, result_bind. cbn [to_double].
    change (1 =? 0)%float with false. cbv iota. rewrite div_one. reflexivity.
  - assert (E : float_of_int (step + 1) = Err OverflowError)
      by (apply float_of_int_overflow; exact H).
    rewrite E. reflexivity.
Qed.

(** [InverseScalingLR(0.5, -0.0).get(7)] is [0.5]. *)
Lemma InverseScalingLR_float_zero_power_witness :
  (-0 =? 0)%float = true /\
  InverseScalingLR.get 7
    (InverseScalingLR.new (Float 0.5) (Some (Float (-0))))
  = Done (Ok (Num (Float 0.5)),
          InverseScalingLR.new (Float 0.5) (Some (Float (-0)))).
Proof.
  assert (Z : (-0 =? 0)%float = true) by reflexivity.
  exact (conj Z (InverseScalingLR_float_zero_power 0.5 (-0) 7 Z)).
Defined.

(** ** The rate never exceeds the base rate *)





(** ** An int power *)

(** With an int [power >= 0] and a float [learning_rate], at a step [>= 0]
    [InverseScalingLR.get] makes no call to the math library and never
    divides by zero: it is [learning_rate / float((step + 1) ** power)],
    the power being exact, and raises [OverflowError] from
    [(step + 1) ** power = 2 ^ 1024 - 2 ^ 970] on. *)
Theorem InverseScalingLR_int_power (learning_rate : float) (power step : Z) :
  (0 <= power)%Z -> (0 <= step)%Z ->
  InverseScalingLR.get step
    (InverseScalingLR.new (Float learning_rate) (Some (Int power)))
  = Done (if ((step + 1) ^ power <? int_too_large)%Z
          then Ok (Num (Float (learning_rate / Z2float ((step + 1) ^ power))))
          else Err OverflowError,
          InverseScalingLR.new (Float learning_rate) (Some (Int power))).
Proof.
  intros Hp Hs. get_on_new. cbn [py_pow].
  replace (power <? 0)%Z with false by (symmetry; apply Z.ltb_ge; lia).
  cbn [libm_bind py_truediv]. unfold float_div. cbn [to_double result_bind].
  pose proof (Z.pow_pos_nonneg (step + 1) power ltac:(lia) Hp) as G.
  destruct (Z.ltb_spec ((step + 1) ^ power) int_too_large) as [H | H].
  - rewrite float_of_int_small by lia. cbn [result_bind].
    destruct (pos_tests _ (Z2float_pos_ltb _ G)) as (Z & _). rewrite Z. reflexivity.
  - assert (E : float_of_int ((step + 1) ^ power) = Err OverflowError)
      by (apply float_of_int_overflow; lia).
    rewrite E. reflexivity.
Qed.

(** [InverseScalingLR(1.0, 2).get(1)] is [0.25]. *)
Lemma InverseScalingLR_int_power_witness :
  (0 <= 2)%Z /\ (0 <= 1)%Z /\
  InverseScalingLR.get 1 (InverseScalingLR.new (Float 1) (Some (Int 2)))
  = Done (Ok (Num (Float 0.25)), InverseScalingLR.new (Float 1) (Some (Int 2))).
Proof.
  assert (Hp : (0 <= 2)%Z) by lia.
  assert (Hs : (0 <= 1)%Z) by lia.
  exact (conj Hp (conj Hs (InverseScalingLR_int_power 1 2 1 Hp Hs))).
Defined.

(** ** Missing attributes *)

Lemma py_add_no_AttributeError a b : py_add a b <> Err AttributeError.
Proof. intros H. apply py_add_error in H. discriminate. Qed.

Lemma py_mul_no_AttributeError a b : py_mul a b <> Err AttributeError.
Proof. intros H. apply py_mul_error in H. discriminate. Qed.

Lemma py_truediv_no_AttributeError a b : py_truediv a b <> Err AttributeError.
Proof.
  destruct b as [[y | y] | re im], a as [x | x]; cbn [py_truediv];
    unfold long_true_divide, float_div, complex_div, c_quot, result_bind;
    cbn [to_double];
    repeat match goal with
           | |- context [float_of_int ?z] =>
               destruct (float_of_int_cases z) as [-> | (? & -> & _)]
           | |- context [if ?b then _ else _] => destruct b
           end; discriminate.
Qed.

Lemma py_pow_no_AttributeError a b :
  all_leaves (fun r => r <> Err AttributeError) (py_pow a b).
Proof.
  assert (F : forall v w, all_leaves (fun r => r <> Err AttributeError) (float_pow v w)).
  { intros v w. unfold float_pow.
    destruct (to_double_cases v) as [-> | (iv & -> & _)]; [discriminate |].
    destruct (to_double_cases w) as [-> | (iw & -> & _)]; [discriminate |].
    unfold float_pow_finish, complex_pow, ret_float.
    repeat match goal with
           | |- all_leaves _ (if ?b then _ else _) => destruct b
           | |- all_leaves _ (let _ := _ in _) => cbv zeta
           | |- all_leaves _ (Call _ _ _) => cbn [all_leaves]; intros ?
           | |- forall _, _ => intros ?
           | |- all_leaves _ (Done _) => cbn [all_leaves]; discriminate
           end. }
  destruct a as [x | x], b as [y | y]; cbn [py_pow]; try apply F.
  destruct (y <? 0)%Z; [apply F | discriminate].
Qed.

Lemma In_attribute name names (self : obj) :
  In name names -> lookup name self = None ->
  exists name, In name names /\ lookup name self = None.
Proof. eauto. Qed.

(** On any instance, [get] raises [AttributeError] exactly when one of the
    attributes its class reads is missing: the arithmetic raises
    [ZeroDivisionError] and [OverflowError] only, whatever the math library
    answers. *)
Theorem get_AttributeError (c : LRScheduler) (o : oracle) (self : obj) (step : Z) :
  fst (run o (get c step) self) = Err AttributeError
  <-> exists name, In name (attributes c) /\ lookup name self = None.
Proof.
  unfold run.
  destruct c; cbn [get attributes].
  - unfold ConstantLR.get, bind, getattr, ret.
    destruct (lookup "learning_rate" self) as [lr |] eqn:L; cbn [libm_bind answer fst].
    + split; [discriminate |]. intros (name & [<- | []] & H). congruence.
    + split; [| reflexivity]. intros _. eapply In_attribute; [| exact L]. cbn. auto.
  - unfold InverseScalingLR.get, bind, getattr, lift, lift_libm.
    destruct (lookup "learning_rate" self) as [lr |] eqn:L; cbn [libm_bind answer fst];
      [| split; [intros _; eapply In_attribute; [| exact L]; cbn; auto | reflexivity]].
    destruct (lookup "power" self) as [p |] eqn:P; cbn [libm_bind answer fst py_add];
      [| split; [intros _; eapply In_attribute; [| exact P]; cbn; auto | reflexivity]].
    split; [| intros (name & [<- | [<- | []]] & H); congruence].
    intros H. exfalso. revert H. rewrite !answer_bind. cbn [answer].
    pose proof (all_leaves_answer _ o _ (py_pow_no_AttributeError (Int (step + 1)) p)) as N.
    cbv beta in N.
    destruct (answer o (py_pow (Int (step + 1)) p)) as [d | e]; cbn [answer fst].
    + apply py_truediv_no_AttributeError.
    + congruence.
  - unfold OptimalLR.get, bind, getattr, lift.
    destruct (lookup "alpha" self) as [a |] eqn:A; cbn [libm_bind answer fst];
      [| split; [intros _; eapply In_attribute; [| exact A]; cbn; auto | reflexivity]].
    destruct (lookup "t0" self) as [t0 |] eqn:T; cbn [libm_bind answer fst];
      [| split; [intros _; eapply In_attribute; [| exact T]; cbn; auto | reflexivity]].
    split; [| intros (name & [<- | [<- | []]] & H); congruence].
    intros H. exfalso. revert H.
    pose proof (py_add_no_AttributeError (Int step) t0) as N1.
    destruct (py_add (Int step) t0) as [sum | e]; cbn [libm_bind answer fst];
      [| congruence].
    pose proof (py_mul_no_AttributeError a sum) as N2.
    destruct (py_mul a sum) as [d | e]; cbn [libm_bind answer fst]; [| congruence].
    apply py_truediv_no_AttributeError.
Qed.
